(** * Forecast orchestration and geospatial overlay of the predictive disaster globe

    A shallow embedding of [predictive_space_disaster_globe_frontend_prediction_engine.jsx]:
    - [JS]: the JavaScript values that flow through the component (parsed JSON
      plus [undefined]), with the coercions and accessors the source relies on;
    - [Geo]: [latLongToVector3], [GeoPolygon] and the per-feature body of the
      render pass of [RiskForecastOverlay];
    - [Engine]: [usePredictionEngine] ([infer], [cancel], the unmount cleanup)
      over an explicit registry of abort controllers;
    - [Overlay]: the polling effect of [RiskForecastOverlay] as an event-driven
      state machine ([fetchAll] suspended at each [await]).

    Numbers are IEEE binary64 values, as JavaScript has them; objects used as
    maps (the controller registry, the per-kind forecast tables) are finite
    maps keyed by the very strings the source builds. *)

From Stdlib Require Import Floats ZArith.
From stdpp Require Import gmap strings list pretty.

Set Warnings "-inexact-float,-register-all".
Set Default Proof Using "Type".

(** ** Exceptions and the result of a computation that may throw *)

Inductive exn : Type :=
| TypeError
| SyntaxError
| AbortError
| Error (message : string).

Inductive result (A : Type) : Type :=
| Ok (a : A)
| Throw (e : exn).
Arguments Ok {A} a.
Arguments Throw {A} e.

#[global] Instance result_ret : MRet result := λ A a, Ok a.
#[global] Instance result_bind : MBind result := λ A B f r,
  match r with
  | Ok a => f a
  | Throw e => Throw e
  end.

#[global] Instance result_fmap : FMap result := λ A B f r,
  match r with
  | Ok a => Ok (f a)
  | Throw e => Throw e
  end.

Fixpoint mapM_result {A B} (f : A → result B) (l : list A) : result (list B) :=
  match l with
  | [] => Ok []
  | a :: l' => b ← f a; bs ← mapM_result f l'; Ok (b :: bs)
  end.

Definition throws {A} (r : result A) : Prop := ∃ e, r = Throw e.

(** ** Built-ins of the host that the source calls but does not define *)

Class Builtins := {
  (** [StringToNumber] of ECMAScript (the numeric value of a string). *)
  StringToNumber : string → float;
  (** [Number::toString] of ECMAScript. *)
  NumberToString : float → string;
  Math_sin : float → float;
  Math_cos : float → float;
}.

(** A crude instance (small-angle sine and cosine, no numeric strings), used
    only to evaluate the definitions on concrete inputs; every statement below
    is made for an arbitrary instance. *)
Definition sample_builtins : Builtins :=
  {| StringToNumber := λ _, PrimFloat.nan;
     NumberToString := λ _, "NaN";
     Math_sin := λ x, x;
     Math_cos := λ _, 1%float |}.

(** ** JavaScript values *)

Module JS.

Inductive value : Type :=
| VUndef
| VNull
| VBool (b : bool)
| VNum (x : float)
| VStr (s : string)
| VArr (elems : list value)
| VObj (fields : list (string * value)).

Definition nullish (v : value) : bool :=
  match v with
  | VUndef | VNull => true
  | _ => false
  end.

(** [ToBoolean]. *)
Definition truthy (v : value) : bool :=
  match v with
  | VUndef | VNull => false
  | VBool b => b
  | VNum x => negb (PrimFloat.is_zero x || PrimFloat.is_nan x)
  | VStr s => negb (String.eqb s "")
  | VArr _ | VObj _ => true
  end.

Definition isArray (v : value) : bool :=
  match v with
  | VArr _ => true
  | _ => false
  end.

Definition typeof_number (v : value) : bool :=
  match v with
  | VNum _ => true
  | _ => false
  end.

Fixpoint assoc (k : string) (fields : list (string * value)) : value :=
  match fields with
  | [] => VUndef
  | (k', v) :: rest => if String.eqb k k' then v else assoc k rest
  end.

(** [v.k] for the property names the source reads ([geojson], [features],
    [geometry], [type], [coordinates], [properties], [risk]): none of them
    exists on the prototype of a primitive, an array or a plain object, so
    only own fields of an object answer; reading from [null] or [undefined]
    throws. *)
Definition get_prop (v : value) (k : string) : result value :=
  match v with
  | VUndef | VNull => Throw TypeError
  | VObj fields => Ok (assoc k fields)
  | _ => Ok VUndef
  end.

Definition chars (s : string) : list value :=
  (λ c, VStr (String c EmptyString)) <$> String.list_ascii_of_string s.

(** [v[n]] for an array index [n]. *)
Definition get_index (v : value) (n : nat) : result value :=
  match v with
  | VUndef | VNull => Throw TypeError
  | VArr elems => Ok (nth n elems VUndef)
  | VStr s => Ok (nth n (chars s) VUndef)
  | VObj fields => Ok (assoc (pretty n) fields)
  | _ => Ok VUndef
  end.

(** The iteration protocol behind array destructuring: arrays and strings are
    iterable, everything else a parsed payload can hold is not. *)
Definition iterate (v : value) : result (list value) :=
  match v with
  | VArr elems => Ok elems
  | VStr s => Ok (chars s)
  | _ => Throw TypeError
  end.

(** [const [a, b] = v]. *)
Definition destructure2 (v : value) : result (value * value) :=
  elems ← iterate v; Ok (nth 0 elems VUndef, nth 1 elems VUndef).

(** [v.map(f)]: only arrays carry a callable [map]. *)
Definition array_map {B} (f : value → result B) (v : value) : result (list B) :=
  match v with
  | VUndef | VNull => Throw TypeError
  | VArr elems => mapM_result f elems
  | _ => Throw TypeError
  end.

Section Coercions.
Context `{Builtins}.

(** [ToString]; an array joins its elements with commas, holes for
    [null] and [undefined]. *)
Fixpoint to_string (v : value) : string :=
  match v with
  | VUndef => "undefined"
  | VNull => "null"
  | VBool true => "true"
  | VBool false => "false"
  | VNum x => NumberToString x
  | VStr s => s
  | VArr elems =>
      String.concat ","
        (map (λ e, match e with
                   | VUndef | VNull => ""
                   | _ => to_string e
                   end) elems)
  | VObj _ => "[object Object]"
  end.

(** [ToNumber]. *)
Definition to_number (v : value) : float :=
  match v with
  | VUndef => PrimFloat.nan
  | VNull => 0
  | VBool true => 1
  | VBool false => 0
  | VNum x => x
  | VStr s => StringToNumber s
  | VArr _ | VObj _ => StringToNumber (to_string v)
  end.

(** Whether [ToPrimitive] yields a string. *)
Definition stringy (v : value) : bool :=
  match v with
  | VStr _ | VArr _ | VObj _ => true
  | _ => false
  end.

(** [a + b]: concatenation as soon as one side is string-like. *)
Definition js_add (a b : value) : value :=
  if stringy a || stringy b then VStr (to_string a +:+ to_string b)
  else VNum (to_number a + to_number b).

Definition js_sub (a b : value) : float := (to_number a - to_number b)%float.
Definition js_mul (a b : value) : float := (to_number a * to_number b)%float.
End Coercions.

(** [Math.min] on two numbers: [NaN] is contagious and [-0] is below [+0]. *)
Definition Math_min (a b : float) : float :=
  if PrimFloat.is_nan a || PrimFloat.is_nan b then PrimFloat.nan
  else if (a <? b)%float then a
  else if (b <? a)%float then b
  else if PrimFloat.get_sign a then a else b.

Definition Math_PI : float := 0x1.921fb54442d18p+1%float.

(** An array index as a Number. *)
Definition Number_of_nat (n : nat) : float :=
  PrimFloat.of_uint63 (Uint63.of_Z (Z.of_nat n)).

End JS.
Export JS.

(** ** Geometry projection and the render pass *)

Module Geo.

Record Vector3 := mkVector3 { vx : float; vy : float; vz : float }.

Section WithBuiltins.
Context `{Builtins}.

Definition latLongToVector3 (lat lon : value) (alt : float) : Vector3 :=
  let radius := (1 + alt)%float in
  let phi := (js_sub (VNum 90) lat * (Math_PI / 180))%float in
  let theta := (to_number (js_add lon (VNum 180)) * (Math_PI / 180))%float in
  {| vx := (- radius * Math_sin phi * Math_cos theta)%float;
     vy := (radius * Math_cos phi)%float;
     vz := (radius * Math_sin phi * Math_sin theta)%float |}.

(** What the overlay hands to the scene: the props of a [GeoPoint] mesh or
    the vertices of the line a [GeoPolygon] draws. *)
Inductive Primitive : Type :=
| GeoPoint (lat lon : value) (size : float) (color : string) (altitude : float)
| GeoLine (pts : list Vector3) (color : string) (opacity : float).

(** The position [GeoPoint] copies into its mesh on every frame. *)
Definition GeoPoint_position (lat lon : value) (altitude : float) : Vector3 :=
  latLongToVector3 lat lon altitude.

Definition vertex (altitude : float) (p : value) : result Vector3 :=
  '(lon, lat) ← destructure2 p; Ok (latLongToVector3 lat lon altitude).

(** The [pts] memo of [GeoPolygon]. *)
Definition GeoPolygon_pts (coordinates : value) (altitude : float)
  : result (list Vector3) :=
  if negb (truthy coordinates) || negb (isArray coordinates) then Ok []
  else
    c0 ← get_index coordinates 0;
    c00 ← get_index c0 0;
    c000 ← (if isArray c00 then get_index c00 0 else Ok VUndef);
    let ring :=
      if isArray c00 && typeof_number c000 then c0
      else if truthy c00 then c00 else VArr [] in
    array_map (vertex altitude) ring.

Definition GeoPolygon (coordinates : value) (color : string)
    (opacity altitude : float) : result (option Primitive) :=
  pts ← GeoPolygon_pts coordinates altitude;
  match pts with
  | [] => Ok None
  | _ => Ok (Some (GeoLine pts color opacity))
  end.
End WithBuiltins.

(** The [n]-th component of a position. *)
Definition component (n : nat) (p : value) : value :=
  match p with
  | VArr elems => nth n elems VUndef
  | _ => VUndef
  end.

(** A linear ring as GeoJSON has it, as far as the source looks: positions
    are arrays and the first one starts with a number. *)
Definition linear_ring (ring : list value) : Prop :=
  Forall (λ p, isArray p = true) ring
  ∧ ∃ x more ring', ring = VArr (VNum x :: more) :: ring'.

End Geo.
Export Geo.

(** ** The prediction engine: [usePredictionEngine] *)

Inductive DisasterKind : Type := fires | floods | landslides.

#[global] Instance DisasterKind_eq_dec : EqDecision DisasterKind.
Proof. solve_decision. Defined.

Definition disaster_name (d : DisasterKind) : string :=
  match d with
  | fires => "fires"
  | floods => "floods"
  | landslides => "landslides"
  end.

(** A horizon is an integral number of hours; its [ToString] is its decimal
    numeral. *)
Definition horizon_string (h : Z) : string := pretty h.

Module Engine.

(** The part of a fetch [Response] that [infer] looks at. *)
Record Response := mkResponse {
  status : Z;
  text : string;          (** what [res.text()] resolves to *)
  json : result value;    (** how [res.json()] settles *)
}.

(** [res.ok]: the status is in the range 200-299. *)
Definition ok (res : Response) : bool :=
  bool_decide (200 ≤ status res ≤ 299)%Z.

(** How the awaited network exchange of one [infer] call ends. *)
Inductive fetch_outcome : Type :=
| Responded (res : Response)
| Rejected (e : exn).

Record Request := mkRequest {
  req_url : string;
  req_disaster : DisasterKind;
  req_horizonHours : Z;
  req_options : value;
  req_signal : nat;       (** the controller whose signal rides along *)
}.

(** [abortControllers.current], the controllers on which [abort()] has been
    called, the supply of fresh controllers and the calls made to [fetch]. *)
Record state := mkState {
  abortControllers : gmap string nat;
  aborted : gset nat;
  next_controller : nat;
  fetch_log : list Request;
}.

Definition init : state :=
  {| abortControllers := ∅; aborted := ∅; next_controller := 0; fetch_log := [] |}.

Definition key (d : DisasterKind) (h : Z) : string :=
  disaster_name d +:+ "-" +:+ horizon_string h.

Record config := mkConfig {
  mode : string;
  apiBase : string;
  modelUrls : value;
}.

Definition emptyFeatureCollection : value :=
  VObj [("type", VStr "FeatureCollection"); ("features", VArr [])].

(** The [mode === "local"] branch: no controller, no request. *)
Definition infer_local (cfg : config) (d : DisasterKind) : result value :=
  url ← (if truthy (modelUrls cfg) then get_prop (modelUrls cfg) (disaster_name d)
         else Ok VUndef);
  if negb (truthy (modelUrls cfg)) || negb (truthy url)
  then Throw (Error ("No local model URL supplied for disaster: " +:+ disaster_name d))
  else Ok emptyFeatureCollection.

(** Orchestrator mode up to the [await]: a fresh controller is registered
    under the key and [fetch] is called with its signal. *)
Definition infer_begin (cfg : config) (st : state) (d : DisasterKind) (h : Z)
    (options : value) : state :=
  let controller := next_controller st in
  {| abortControllers := <[key d h := controller]> (abortControllers st);
     aborted := aborted st;
     next_controller := S controller;
     fetch_log := fetch_log st ++
       [ {| req_url := apiBase cfg +:+ "/api/ai/infer";
            req_disaster := d; req_horizonHours := h;
            req_options := options; req_signal := controller |} ] |}.

(** What the body of the [try] evaluates to once the exchange has ended. *)
Definition infer_settle (o : fetch_outcome) : result value :=
  match o with
  | Rejected e => Throw e
  | Responded res =>
      if negb (ok res)
      then Throw (Error ("Inference request failed: " +:+ pretty (status res)
                           +:+ " " +:+ text res))
      else
        body ← json res;
        geojson ← get_prop body "geojson";
        Ok (if truthy geojson then geojson else body)
  end.

(** The [finally] clause. *)
Definition infer_finally (st : state) (d : DisasterKind) (h : Z) : state :=
  {| abortControllers := delete (key d h) (abortControllers st);
     aborted := aborted st;
     next_controller := next_controller st;
     fetch_log := fetch_log st |}.

(** One whole call of [infer]: [o] is how the network exchange ends, and is
    not consulted in local mode. *)
Definition infer (cfg : config) (st : state) (d : DisasterKind) (h : Z)
    (options : value) (o : fetch_outcome) : result value * state :=
  if String.eqb (mode cfg) "local" then (infer_local cfg d, st)
  else (infer_settle o, infer_finally (infer_begin cfg st d h options) d h).

Definition abort (st : state) (controller : nat) : state :=
  {| abortControllers := abortControllers st;
     aborted := {[controller]} ∪ aborted st;
     next_controller := next_controller st;
     fetch_log := fetch_log st |}.

Definition cancel (st : state) (d : DisasterKind) (h : Z) : state :=
  match abortControllers st !! key d h with
  | Some c => abort st c
  | None => st
  end.

(** The cleanup of the engine's effect, run when the component unmounts. *)
Definition cleanup (st : state) : state :=
  {| abortControllers := ∅;
     aborted := foldr (λ c acc, {[c]} ∪ acc) (aborted st)
                      (snd <$> map_to_list (abortControllers st));
     next_controller := next_controller st;
     fetch_log := fetch_log st |}.

End Engine.

(** ** The overlay: [RiskForecastOverlay] *)

Module Overlay.
Import Engine.

Record Style := mkStyle { color : string; altOffset : float }.

Definition disasterStyle (d : DisasterKind) : Style :=
  match d with
  | fires => {| color := "#ff6600"; altOffset := 0.02 |}
  | floods => {| color := "#0066ff"; altOffset := 0.025 |}
  | landslides => {| color := "#ffcc00"; altOffset := 0.018 |}
  end.

(** [Object.keys(disasterStyle)], also the [disasters] array of [fetchAll]. *)
Definition disasters : list DisasterKind := [fires; floods; landslides].

(** *** The forecast cache *)

(** [{ fires: {}, floods: {}, landslides: {} }]: per disaster kind an object
    keyed by the horizon. *)
Record Predictions := mkPredictions {
  p_fires : gmap string (list value);
  p_floods : gmap string (list value);
  p_landslides : gmap string (list value);
}.

Definition emptyPredictions : Predictions :=
  {| p_fires := ∅; p_floods := ∅; p_landslides := ∅ |}.

Definition by_kind (p : Predictions) (d : DisasterKind) : gmap string (list value) :=
  match d with
  | fires => p_fires p
  | floods => p_floods p
  | landslides => p_landslides p
  end.

(** [p[d][h]]; [None] stands for [undefined]. *)
Definition cell (p : Predictions) (d : DisasterKind) (h : Z) : option (list value) :=
  by_kind p d !! horizon_string h.

(** [p[d][h] = features]. *)
Definition set_cell (d : DisasterKind) (h : Z) (features : list value)
    (p : Predictions) : Predictions :=
  match d with
  | fires =>
      {| p_fires := <[horizon_string h := features]> (p_fires p);
         p_floods := p_floods p; p_landslides := p_landslides p |}
  | floods =>
      {| p_fires := p_fires p;
         p_floods := <[horizon_string h := features]> (p_floods p);
         p_landslides := p_landslides p |}
  | landslides =>
      {| p_fires := p_fires p; p_floods := p_floods p;
         p_landslides := <[horizon_string h := features]> (p_landslides p) |}
  end.

(** *** The render pass *)

Definition is_string (v : value) (s : string) : bool :=
  match v with
  | VStr t => String.eqb t s
  | _ => false
  end.

Section Render.
Context `{Builtins}.

(** [feat.properties?.risk] *)
Definition optional_risk (feat : value) : result value :=
  properties ← get_prop feat "properties";
  if nullish properties then Ok VUndef else get_prop properties "risk".

(** [feat.properties?.risk ?? 0.5] *)
Definition feature_risk (feat : value) : result value :=
  risk ← optional_risk feat;
  Ok (if nullish risk then VNum 0.5 else risk).

(** [0.006 + Math.min(0.03, risk * 0.08)] *)
Definition point_size (risk : value) : float :=
  (0.006 + Math_min 0.03 (js_mul risk (VNum 0.08)))%float.

(** [1 + style.altOffset ? 1 + style.altOffset : 0.02] *)
Definition point_altitude (style : Style) : float :=
  if truthy (VNum (1 + altOffset style)) then (1 + altOffset style)%float
  else 0.02%float.

(** [0.01 + (horizonIdx * 0.002)] *)
Definition polygon_altitude (horizonIdx : nat) : float :=
  (0.01 + Number_of_nat horizonIdx * 0.002)%float.

(** The callback of [features.map] for one feature; [None] is a [null]
    child. *)
Definition render_feature (style : Style) (horizonIdx : nat) (feat : value)
  : result (option Primitive) :=
  if negb (truthy feat) then Ok None
  else
    geom ← get_prop feat "geometry";
    if negb (truthy geom) then Ok None
    else
      type ← get_prop geom "type";
      if is_string type "Point" then
        coordinates ← get_prop geom "coordinates";
        '(lon, lat) ← destructure2 coordinates;
        risk ← feature_risk feat;
        Ok (Some (GeoPoint lat lon (point_size risk) (color style)
                    (point_altitude style)))
      else if is_string type "Polygon" || is_string type "MultiPolygon" then
        coordinates ← get_prop geom "coordinates";
        coords ← (if is_string type "Polygon" then Ok coordinates
                  else get_index coordinates 0);
        GeoPolygon coords (color style) 0.22 (polygon_altitude horizonIdx)
      else Ok None.

(** The children of the group of one disaster kind within one horizon. *)
Definition render_features (style : Style) (horizonIdx : nat)
    (features : list value) : result (list (option Primitive)) :=
  mapM_result (render_feature style horizonIdx) features.

Definition render_group (predictions : Predictions) (horizonIdx : nat) (h : Z)
    (d : DisasterKind) : result (list (option Primitive)) :=
  render_features (disasterStyle d) horizonIdx (default [] (cell predictions d h)).

(** The whole render of the component: per horizon, per disaster kind. *)
Definition render (enabled : bool) (hoursList : list Z) (predictions : Predictions)
  : result (option (list (list (list (option Primitive))))) :=
  if negb enabled then Ok None
  else
    groups ← mapM_result
      (λ ih, mapM_result (render_group predictions ih.1 ih.2) disasters)
      (imap (λ i h, (i, h)) hoursList);
    Ok (Some groups).

(** The primitives among the children, in order. *)
Definition primitives (children : list (option Primitive)) : list Primitive :=
  omap id children.
End Render.

(** *** The polling effect *)

Definition Cell : Type := DisasterKind * Z.

(** The iteration order of the two nested loops of [fetchAll]. *)
Definition grid (hoursList : list Z) : list Cell :=
  d ← disasters; (λ h, (d, h)) <$> hoursList.

(** What a cell receives from the value [infer] settled with: the [features]
    array of the payload, or the empty array - after a throw as well. *)
Definition cell_features (r : result value) : list value :=
  match r with
  | Throw _ => []
  | Ok geojson =>
      if truthy geojson then
        match get_prop geojson "features" with
        | Ok (VArr features) => features
        | _ => []
        end
      else []
  end.

(** A call of [fetchAll] suspended at its [await]. [c_id] and [c_done] are
    bookkeeping: the identity of the call and the exchanges it has seen. *)
Record Cycle := mkCycle {
  c_id : nat;
  c_effect : nat;              (** the effect run whose [mounted] it closes over *)
  c_hoursList : list Z;
  c_newPred : Predictions;
  c_cell : Cell;               (** the cell whose [infer] is awaited *)
  c_controller : nat;          (** the controller of that call *)
  c_rest : list Cell;          (** the iterations still to come *)
  c_done : list (Cell * fetch_outcome);
}.

(** A [fetchAll] that got past its loop, with the snapshot it built. *)
Record Publication := mkPublication {
  pub_cycle : nat;
  pub_effect : nat;
  pub_hoursList : list Z;
  pub_done : list (Cell * fetch_outcome);
  pub_snapshot : Predictions;
}.

Inductive progress : Type :=
| Suspended (c : Cycle)
| Finished (p : Publication).

Section Polling.
(** [process.env.REACT_APP_API_BASE || ""] *)
Variable API_BASE : string.

Definition engine_config : config :=
  {| mode := "orchestrator"; apiBase := API_BASE; modelUrls := VObj [] |}.

Definition infer_options : value := VObj [("realtime", VBool true)].

(** [fetchAll] from its entry to the first [await]. *)
Definition fetchAll_begin (e : Engine.state) (id eff : nat) (hoursList : list Z)
  : Engine.state * progress :=
  match grid hoursList with
  | [] =>
      (e, Finished {| pub_cycle := id; pub_effect := eff; pub_hoursList := hoursList;
                      pub_done := []; pub_snapshot := emptyPredictions |})
  | (d, h) :: rest =>
      (infer_begin engine_config e d h infer_options,
       Suspended {| c_id := id; c_effect := eff; c_hoursList := hoursList;
                    c_newPred := emptyPredictions; c_cell := (d, h);
                    c_controller := next_controller e; c_rest := rest;
                    c_done := [] |})
  end.

(** [fetchAll] from the settlement of the awaited [infer] to the next
    [await], or to the end of the loop. *)
Definition resume (e : Engine.state) (c : Cycle) (o : fetch_outcome)
  : Engine.state * progress :=
  let e1 := infer_finally e (c_cell c).1 (c_cell c).2 in
  let newPred :=
    set_cell (c_cell c).1 (c_cell c).2 (cell_features (infer_settle o)) (c_newPred c) in
  let done := c_done c ++ [(c_cell c, o)] in
  match c_rest c with
  | [] =>
      (e1, Finished {| pub_cycle := c_id c; pub_effect := c_effect c;
                       pub_hoursList := c_hoursList c;
                       pub_done := done; pub_snapshot := newPred |})
  | (d, h) :: rest =>
      (infer_begin engine_config e1 d h infer_options,
       Suspended {| c_id := c_id c; c_effect := c_effect c;
                    c_hoursList := c_hoursList c;
                    c_newPred := newPred; c_cell := (d, h);
                    c_controller := next_controller e1; c_rest := rest;
                    c_done := done |})
  end.

Fixpoint fetchAll_loop (e : Engine.state) (c : Cycle) (os : list fetch_outcome)
  : Engine.state * progress :=
  match os with
  | [] => (e, Suspended c)
  | o :: os' =>
      match resume e c o with
      | (e', Suspended c') => fetchAll_loop e' c' os'
      | (e', Finished p) => (e', Finished p)
      end
  end.

(** One call of [fetchAll] run on its own, given how its exchanges end, in
    the order in which it makes them. *)
Definition fetchAll (e : Engine.state) (id eff : nat) (hoursList : list Z)
    (os : list fetch_outcome) : Engine.state * progress :=
  match fetchAll_begin e id eff hoursList with
  | (e', Suspended c) => fetchAll_loop e' c os
  | (e', Finished p) => (e', Finished p)
  end.

(** The snapshot a call has built from the exchanges it has seen, in the words
    of the loop body: each exchange writes its cell. *)
Definition record_cell (p : Predictions) (co : Cell * fetch_outcome) : Predictions :=
  set_cell co.1.1 co.1.2 (cell_features (infer_settle co.2)) p.

Definition snapshot_of (done : list (Cell * fetch_outcome)) : Predictions :=
  foldl record_cell emptyPredictions done.

(** The registry once the call made for a cell has run its [finally]. *)
Definition forget (m : gmap string nat) (c : Cell) : gmap string nat :=
  delete (key c.1 c.2) m.

(** The cell a logged request asks for. *)
Definition requested (r : Request) : Cell := (req_disaster r, req_horizonHours r).

(** A publication is complete when it has seen one exchange per cell of its
    grid, in grid order, and its snapshot is built from exactly those. *)
Definition complete (p : Publication) : Prop :=
  (pub_done p).*1 = grid (pub_hoursList p)
  ∧ pub_snapshot p = snapshot_of (pub_done p).

(** A backend whose answer depends on the request alone. *)
Definition runCycle (backend : DisasterKind → Z → fetch_outcome)
    (e : Engine.state) (id eff : nat) (hoursList : list Z)
  : Engine.state * progress :=
  fetchAll e id eff hoursList ((λ c : Cell, backend c.1 c.2) <$> grid hoursList).

(** The component between two events of the event loop. *)
Record state := mkState {
  engine : Engine.state;
  predictions : Predictions;           (** the React state *)
  live : option (nat * list Z);        (** the effect run whose [mounted] is
                                           [true] and whose interval is set *)
  next_effect : nat;
  next_cycle : nat;
  cycles : list Cycle;
  published : list Publication;        (** the calls of [setPredictions],
                                           newest first *)
}.

Definition init : state :=
  {| engine := Engine.init; predictions := emptyPredictions; live := None;
     next_effect := 0; next_cycle := 0; cycles := []; published := [] |}.

(** The variable [mounted] of effect run [eff]. *)
Definition mounted (s : state) (eff : nat) : bool :=
  match live s with
  | Some (e, _) => Nat.eqb e eff
  | None => false
  end.

(** [if (!mounted) return; setPredictions(newPred);] *)
Definition finish (s : state) (p : Publication) : state :=
  if mounted s (pub_effect p) then
    {| engine := engine s; predictions := pub_snapshot p; live := live s;
       next_effect := next_effect s; next_cycle := next_cycle s;
       cycles := cycles s; published := p :: published s |}
  else s.

(** A call [fetchAll()] made by effect run [eff]. *)
Definition call_fetchAll (s : state) (eff : nat) (hoursList : list Z) : state :=
  let id := next_cycle s in
  match fetchAll_begin (engine s) id eff hoursList with
  | (e, Suspended c) =>
      {| engine := e; predictions := predictions s; live := live s;
         next_effect := next_effect s; next_cycle := S id;
         cycles := cycles s ++ [c]; published := published s |}
  | (e, Finished p) =>
      finish {| engine := e; predictions := predictions s; live := live s;
                next_effect := next_effect s; next_cycle := S id;
                cycles := cycles s; published := published s |} p
  end.

(** What the event loop can deliver to the component. When the effect runs
    again while an earlier run is live, React has run that run's cleanup
    first; taking [live] over has the same effect. *)
Inductive event : Type :=
| EffectRun (hoursList : list Z)  (** the effect body, [enabled] being true *)
| TimerFire                       (** the interval callback *)
| EffectCleanup                   (** disabling, new props, or unmounting *)
| EngineCleanup                   (** the engine's cleanup, on unmounting *)
| Settle (i : nat) (o : fetch_outcome).
                                  (** the [infer] awaited by the [i]-th
                                      suspended call settles *)

Definition step (s : state) (ev : event) : state :=
  match ev with
  | EffectRun hoursList =>
      let eff := next_effect s in
      call_fetchAll
        {| engine := engine s; predictions := predictions s;
           live := Some (eff, hoursList);
           next_effect := S eff; next_cycle := next_cycle s;
           cycles := cycles s; published := published s |}
        eff hoursList
  | TimerFire =>
      match live s with
      | Some (eff, hoursList) => call_fetchAll s eff hoursList
      | None => s
      end
  | EffectCleanup =>
      {| engine := engine s; predictions := predictions s; live := None;
         next_effect := next_effect s; next_cycle := next_cycle s;
         cycles := cycles s; published := published s |}
  | EngineCleanup =>
      {| engine := Engine.cleanup (engine s); predictions := predictions s;
         live := live s; next_effect := next_effect s;
         next_cycle := next_cycle s; cycles := cycles s;
         published := published s |}
  | Settle i o =>
      match cycles s !! i with
      | None => s
      | Some c =>
          (* an aborted signal makes the exchange reject *)
          let o' := if bool_decide (c_controller c ∈ aborted (engine s))
                    then Rejected AbortError else o in
          match resume (engine s) c o' with
          | (e, Suspended c') =>
              {| engine := e; predictions := predictions s; live := live s;
                 next_effect := next_effect s; next_cycle := next_cycle s;
                 cycles := <[i := c']> (cycles s); published := published s |}
          | (e, Finished p) =>
              finish {| engine := e; predictions := predictions s; live := live s;
                        next_effect := next_effect s; next_cycle := next_cycle s;
                        cycles := delete i (cycles s);
                        published := published s |} p
          end
      end
  end.

Definition run (s : state) (evs : list event) : state := foldl step s evs.

(** The snapshot an observer of the React state should be looking at. *)
Definition latest (s : state) : Predictions :=
  match published s with
  | [] => emptyPredictions
  | p :: _ => pub_snapshot p
  end.

(** A suspended call stands somewhere in its grid, and what it holds was
    built from its own exchanges alone. *)
Definition cycle_consistent (c : Cycle) : Prop :=
  grid (c_hoursList c) = (c_done c).*1 ++ c_cell c :: c_rest c
  ∧ c_newPred c = snapshot_of (c_done c).

Record invariant (s : state) : Prop := mkInvariant {
  inv_ids : Forall (λ c, c_id c < next_cycle s) (cycles s);
  inv_nodup : NoDup (c_id <$> cycles s);
  inv_pub_ids :
    Forall (λ p, pub_cycle p < next_cycle s ∧ pub_cycle p ∉ c_id <$> cycles s)
           (published s);
  inv_pub_nodup : NoDup (pub_cycle <$> published s);
  inv_cycles : Forall cycle_consistent (cycles s);
  inv_published : Forall complete (published s);
  inv_predictions : predictions s = latest s;
}.

Definition is_EffectRun (ev : event) : bool :=
  match ev with
  | EffectRun _ => true
  | _ => false
  end.

(** Unmounting runs both cleanups, the engine's effect being the first
    declared. *)
Definition unmount : list event := [EngineCleanup; EffectCleanup].
End Polling.

End Overlay.

(** ** Sample payloads *)

Module Samples.

Definition feature (geometry : value) (properties : value) : value :=
  VObj [("type", VStr "Feature"); ("geometry", geometry); ("properties", properties)].

Definition point (lon lat : float) : value :=
  VObj [("type", VStr "Point"); ("coordinates", VArr [VNum lon; VNum lat])].

Definition with_risk (r : float) : value := VObj [("risk", VNum r)].

Definition position (lon lat : float) : value := VArr [VNum lon; VNum lat].

(** The closed ring [[0,0],[1,0],[1,1],[0,0]]. *)
Definition triangle : list value :=
  [position 0 0; position 1 0; position 1 1; position 0 0].

Definition polygon (rings : list value) : value :=
  VObj [("type", VStr "Polygon"); ("coordinates", VArr rings)].

Definition multipolygon (polygons : list value) : value :=
  VObj [("type", VStr "MultiPolygon"); ("coordinates", VArr polygons)].

Definition featureCollection (features : list value) : value :=
  VObj [("type", VStr "FeatureCollection"); ("features", VArr features)].

Definition answer (features : list value) : Engine.fetch_outcome :=
  Engine.Responded {| Engine.status := 200; Engine.text := "";
                      Engine.json := Ok (VObj [("geojson", featureCollection features)]) |}.

Definition failure : Engine.fetch_outcome :=
  Engine.Responded {| Engine.status := 500; Engine.text := "boom";
                      Engine.json := Throw SyntaxError |}.

Definition hotspot : value := feature (point 0 0) (with_risk 0.9).

(** Horizons 6 and 12; every request is answered with one hotspot, except
    the one for (floods, 12), which fails. *)
Definition one_forced_error : list Engine.fetch_outcome :=
  [answer [hotspot]; answer [hotspot]; answer [hotspot]; failure;
   answer [hotspot]; answer [hotspot]].

End Samples.

(** ** The satellite list of the top-level component *)

Module Globe.

Record Satellite := mkSatellite {
  sat_name : string;
  sat_tle : string * string;
}.

(** The line feed. *)
Definition LF : Ascii.ascii := Eval compute in Ascii.ascii_of_nat 10.

(** [txt.split("\n")] *)
Fixpoint split_lines (txt : string) : list string :=
  match txt with
  | EmptyString => [EmptyString]
  | String c rest =>
      if Ascii.eqb c LF then EmptyString :: split_lines rest
      else match split_lines rest with
           | [] => [String c EmptyString]
           | line :: lines => String c line :: lines
           end
  end.

(** [Boolean(s)] for a string. *)
Definition nonempty (s : string) : bool := negb (String.eqb s "").

Section FetchTLE.
(** [String.prototype.trim] *)
Variable trim : string → string.

(** The [for] loop of [fetchTLE], entered at a multiple of three with [lines]
    what is left from there on and [sats] what has been pushed so far. *)
Fixpoint fetchTLE_loop (lines : list string) (sats : list Satellite)
  : list Satellite :=
  match lines with
  | [] => sats
  | l0 :: rest =>
      let sats' :=
        match rest with
        | l1 :: l2 :: _ =>
            if nonempty l1 && nonempty l2
            then sats ++ [ {| sat_name := trim l0; sat_tle := (l1, l2) |} ]
            else sats
        | _ => sats
        end in
      if 6 <=? length sats' then sats'
      else match rest with
           | _ :: _ :: rest' => fetchTLE_loop rest' sats'
           | _ => sats'
           end
  end.

(** What [setSatellites] receives for a body text. *)
Definition parse_TLE (txt : string) : list Satellite :=
  fetchTLE_loop (List.filter nonempty (split_lines txt)) [].

(** The [satellites] state after [fetchTLE]: a failed download is caught
    and leaves it alone. *)
Definition fetchTLE (satellites : list Satellite) (download : result string)
  : list Satellite :=
  match download with
  | Ok txt => parse_TLE txt
  | Throw _ => satellites
  end.

(** Three lines at a time: a name line and the two element lines. *)
Fixpoint triples (lines : list string) : list Satellite :=
  match lines with
  | l0 :: l1 :: l2 :: rest =>
      {| sat_name := trim l0; sat_tle := (l1, l2) |} :: triples rest
  | _ => []
  end.
End FetchTLE.

Definition palette : list string :=
  ["#ffcc00"; "#00ffff"; "#ff66cc"; "#33ff33"; "#ff3333"; "#aa66ff"].

(** The [color] prop of the markers: [palette[i % 6]]. *)
Definition marker_colors (satellites : list Satellite) : list string :=
  imap (λ i _, nth (i mod 6) palette "") satellites.

(** The [key] prop of the markers: [s.name + i]. *)
Definition marker_keys (satellites : list Satellite) : list string :=
  imap (λ i s, sat_name s +:+ pretty i) satellites.

End Globe.

(** ** Notions used to state properties of the engine and of the polling *)

(** Controllers are handed out in increasing order: whatever is registered,
    aborted or logged was created before the next one. *)
Definition fresh (st : Engine.state) : Prop :=
  (∀ k c, Engine.abortControllers st !! k = Some c → c < Engine.next_controller st)
  ∧ (∀ c, c ∈ Engine.aborted st → c < Engine.next_controller st)
  ∧ Forall (λ r, Engine.req_signal r < Engine.next_controller st) (Engine.fetch_log st)
  ∧ NoDup (Engine.req_signal <$> Engine.fetch_log st).

(** Controllers are fresh in the engine, and the calls in flight hold
    controllers that are pairwise distinct. *)
Definition controllers_distinct (s : Overlay.state) : Prop :=
  fresh (Overlay.engine s)
  ∧ Forall (λ c, Overlay.c_controller c < Engine.next_controller (Overlay.engine s))
           (Overlay.cycles s)
  ∧ NoDup (Overlay.c_controller <$> Overlay.cycles s).

(** The requests that the calls in flight have still to make. *)
Definition pending (cycles : list Overlay.Cycle) : nat :=
  sum_list ((λ c, length (Overlay.c_rest c)) <$> cycles).

(** The children rendered while there is nothing to show: per horizon, an
    empty group per disaster kind. *)
Definition empty_groups (hoursList : list Z) : list (list (list (option Primitive))) :=
  (λ _, (λ _, []) <$> Overlay.disasters) <$> hoursList.

(** * Properties *)

Import Engine Overlay.

(** ** Computations that may throw *)

Lemma mapM_result_app {A B} (f : A → result B) (l1 l2 : list A) :
  mapM_result f (l1 ++ l2) =
  (bs1 ← mapM_result f l1; bs2 ← mapM_result f l2; Ok (bs1 ++ bs2)).
Proof.
  induction l1 as [|a l1 IH]; simpl.
  - by destruct (mapM_result f l2).
  - destruct (f a) as [b|e]; simpl; [|done].
    rewrite IH. destruct (mapM_result f l1) as [bs1|e]; simpl; [|done].
    by destruct (mapM_result f l2).
Qed.

Lemma mapM_result_total {A B} (f : A → result B) (g : A → B) (l : list A) :
  Forall (λ a, f a = Ok (g a)) l → mapM_result f l = Ok (g <$> l).
Proof.
  induction 1 as [|a l Ha _ IH]; simpl; [done|].
  by rewrite Ha, IH.
Qed.

Lemma mapM_result_Forall2 {A B} (f : A → result B) (l : list A) (bs : list B) :
  Forall2 (λ a b, f a = Ok b) l bs → mapM_result f l = Ok bs.
Proof.
  induction 1 as [|a b l bs Ha _ IH]; simpl; [done|].
  by rewrite Ha, IH.
Qed.

(** ** The render pass *)

Section RenderFacts.
Context `{Builtins}.

Lemma get_prop_string_is_obj (v : value) (k s : string) :
  get_prop v k = Ok (VStr s) → ∃ fields, v = VObj fields.
Proof. destruct v; simpl; intros; simplify_eq; eauto. Qed.

Lemma get_prop_truthy (v w : value) (k : string) :
  get_prop v k = Ok w → truthy w = true → truthy v = true.
Proof. destruct v; simpl; intros; simplify_eq; done. Qed.

(** The render of a feature whose geometry is a [Point] with iterable
    coordinates. *)
Lemma render_point (style : Style) (horizonIdx : nat)
    (feat geom coordinates risk : value) (elems : list value) :
  get_prop feat "geometry" = Ok geom →
  get_prop geom "type" = Ok (VStr "Point") →
  get_prop geom "coordinates" = Ok coordinates →
  iterate coordinates = Ok elems →
  optional_risk feat = Ok risk →
  render_feature style horizonIdx feat =
    Ok (Some (GeoPoint (nth 1 elems VUndef) (nth 0 elems VUndef)
                (point_size (if nullish risk then VNum 0.5 else risk))
                (color style) (point_altitude style))).
Proof.
  intros Hg Ht Hc Hi Hr.
  destruct (get_prop_string_is_obj _ _ _ Ht) as [gf ->].
  assert (truthy feat = true) as Hf by (by eapply get_prop_truthy).
  unfold render_feature. rewrite Hf, Hg; simpl negb; cbn iota.
  simpl in Ht. simpl mbind. simpl truthy. cbn iota.
  injection Ht as Ht. rewrite Ht. simpl.
  simpl in Hc. injection Hc as Hc. rewrite Hc.
  unfold destructure2. rewrite Hi. simpl.
  unfold feature_risk. rewrite Hr. done.
Qed.

Lemma point_altitude_style (d : DisasterKind) :
  point_altitude (disasterStyle d) = (1 + altOffset (disasterStyle d))%float.
Proof. by destruct d. Qed.
End RenderFacts.

(** C3 (as amended). A Point feature with iterable coordinates projects to
    exactly one primitive, a [GeoPoint], whose size is
    [0.006 + min(0.03, risk * 0.08)], the risk being 0.5 when
    [properties.risk] is missing, and whose altitude is [1 + style.altOffset];
    with [risk = 0.9] the minimum caps the product at 0.03, so the size is
    0.036. *)
Theorem point_feature_primitive `{Builtins} (d : DisasterKind) (horizonIdx : nat)
    (feat geom coordinates risk : value) (elems : list value) :
  get_prop feat "geometry" = Ok geom →
  get_prop geom "type" = Ok (VStr "Point") →
  get_prop geom "coordinates" = Ok coordinates →
  iterate coordinates = Ok elems →
  optional_risk feat = Ok risk →
  render_feature (disasterStyle d) horizonIdx feat =
    Ok (Some (GeoPoint (nth 1 elems VUndef) (nth 0 elems VUndef)
                (0.006 + Math_min 0.03
                           (to_number (if nullish risk then VNum 0.5 else risk) * 0.08))
                (color (disasterStyle d))
                (1 + altOffset (disasterStyle d))))
  ∧ render_feature (disasterStyle fires) horizonIdx
      (Samples.feature (Samples.point 0 0) (Samples.with_risk 0.9)) =
    Ok (Some (GeoPoint (VNum 0) (VNum 0) 0.036 "#ff6600" 1.02)).
Proof.
  intros Hg Ht Hc Hi Hr. split; [|reflexivity].
  rewrite (render_point _ _ _ _ _ _ _ Hg Ht Hc Hi Hr), point_altitude_style.
  reflexivity.
Qed.

Lemma point_feature_primitive_witness :
  render_feature (H := sample_builtins) (disasterStyle floods) 1
    (Samples.feature (Samples.point 10 20) VNull) =
  Ok (Some (GeoPoint (VNum 20) (VNum 10) 0.036 "#0066ff" 1.025)).
Proof.
  exact (proj1 (point_feature_primitive (H := sample_builtins) floods 1
                  (Samples.feature (Samples.point 10 20) VNull)
                  (Samples.point 10 20) (VArr [VNum 10; VNum 20]) VUndef
                  [VNum 10; VNum 20]
                  eq_refl eq_refl eq_refl eq_refl eq_refl)).
Defined.

(** C3 as stated fails: for the Point feature with [risk = 0.9] the size is
    0.036, more than 0.04 away from 0.078. *)
Lemma point_risk_09_size_is_not_0078 :
  ∃ lat lon size c altitude,
    render_feature (H := sample_builtins) (disasterStyle fires) 0
      (Samples.feature (Samples.point 0 0) (Samples.with_risk 0.9)) =
      Ok (Some (GeoPoint lat lon size c altitude))
    ∧ size ≠ 0.078%float
    ∧ (size + 0.04 <? 0.078)%float = true.
Proof.
  eexists _, _, _, _, _. split; [reflexivity|]. split; [|reflexivity].
  intros Heq. apply (f_equal (λ x, PrimFloat.eqb x 0.078)) in Heq.
  vm_compute in Heq. discriminate.
Qed.

(** C6 (as amended). The default 0.5 is used exactly when [properties.risk]
    is absent ([undefined] or [null], or no [properties] at all); a numeric
    risk is used as it is, whether or not it lies in the range from 0 to 1. *)
Theorem risk_defaults_only_when_absent `{Builtins} (d : DisasterKind)
    (horizonIdx : nat) (feat geom coordinates risk : value) (elems : list value) :
  get_prop feat "geometry" = Ok geom →
  get_prop geom "type" = Ok (VStr "Point") →
  get_prop geom "coordinates" = Ok coordinates →
  iterate coordinates = Ok elems →
  optional_risk feat = Ok risk →
  (nullish risk = true →
     feature_risk feat = Ok (VNum 0.5) ∧
     render_feature (disasterStyle d) horizonIdx feat =
       Ok (Some (GeoPoint (nth 1 elems VUndef) (nth 0 elems VUndef)
                   (0.006 + Math_min 0.03 (0.5 * 0.08))
                   (color (disasterStyle d)) (1 + altOffset (disasterStyle d)))))
  ∧ (∀ x : float, risk = VNum x →
     feature_risk feat = Ok (VNum x) ∧
     render_feature (disasterStyle d) horizonIdx feat =
       Ok (Some (GeoPoint (nth 1 elems VUndef) (nth 0 elems VUndef)
                   (0.006 + Math_min 0.03 (x * 0.08))
                   (color (disasterStyle d)) (1 + altOffset (disasterStyle d))))).
Proof.
  intros Hg Ht Hc Hi Hr.
  pose proof (render_point (disasterStyle d) horizonIdx _ _ _ _ _ Hg Ht Hc Hi Hr) as R.
  rewrite point_altitude_style in R.
  split.
  - intros Hn. rewrite Hn in R. split; [|exact R].
    unfold feature_risk. rewrite Hr; simpl. by rewrite Hn.
  - intros x ->. split; [|exact R].
    unfold feature_risk. by rewrite Hr.
Qed.

Lemma risk_defaults_only_when_absent_witness :
  feature_risk (Samples.feature (Samples.point 10 20) (Samples.with_risk 1.5)) =
    Ok (VNum 1.5).
Proof.
  exact (proj1 (proj2 (risk_defaults_only_when_absent (H := sample_builtins) fires 0
                  (Samples.feature (Samples.point 10 20) (Samples.with_risk 1.5))
                  (Samples.point 10 20) (VArr [VNum 10; VNum 20]) (VNum 1.5)
                  [VNum 10; VNum 20]
                  eq_refl eq_refl eq_refl eq_refl eq_refl) 1.5%float eq_refl)).
Defined.

(** C6 as stated fails: a risk of -1 is outside the range and is not replaced
    by 0.5; the point is sized from -1 and comes out with a negative size,
    where the default would have given 0.036. *)
Lemma out_of_range_risk_is_not_defaulted :
  feature_risk (Samples.feature (Samples.point 0 0) (Samples.with_risk (-1))) =
    Ok (VNum (-1))
  ∧ VNum (-1) ≠ VNum 0.5
  ∧ ∃ lat lon size c altitude,
      render_feature (H := sample_builtins) (disasterStyle fires) 0
        (Samples.feature (Samples.point 0 0) (Samples.with_risk (-1))) =
        Ok (Some (GeoPoint lat lon size c altitude))
      ∧ (size <? 0)%float = true
      ∧ size ≠ point_size (H := sample_builtins) (VNum 0.5).
Proof.
  split; [reflexivity|]. split.
  - intros Heq.
    apply (f_equal (λ v, match v with VNum x => PrimFloat.eqb x 0.5 | _ => true end))
      in Heq.
    vm_compute in Heq. discriminate.
  - eexists _, _, _, _, _. split; [reflexivity|]. split; [reflexivity|].
    intros Heq. apply (f_equal (λ x, PrimFloat.ltb x 0)) in Heq.
    vm_compute in Heq. discriminate.
Qed.

(** C5. The code breaks the claim on the Point path. A feature with a
    geometry of an unrecognized type is skipped, and [GeoPolygon] guards
    against coordinates that are missing or not an array; the Point branch
    has no such guard, and destructures the coordinates as they come. For the
    Point feature whose coordinates are [null], the render throws a
    [TypeError] where the claim has the feature skipped without error. *)
Lemma point_without_coordinates_throws :
  render_feature (H := sample_builtins) (disasterStyle fires) 0
    (Samples.feature
       (VObj [("type", VStr "Point"); ("coordinates", VNull)]) VNull) =
  Throw TypeError.
Proof. reflexivity. Qed.

(** The guards that are there: a feature whose geometry has a type other
    than [Point], [Polygon] and [MultiPolygon] yields no primitive and no
    error, and so does a Polygon whose coordinates are missing or not an
    array. *)
Theorem unsupported_geometry_is_skipped `{Builtins} (style : Style)
    (horizonIdx : nat) (feat geom type : value) :
  get_prop feat "geometry" = Ok geom →
  truthy geom = true →
  get_prop geom "type" = Ok type →
  (is_string type "Point" = false ∧ is_string type "Polygon" = false
     ∧ is_string type "MultiPolygon" = false)
  ∨ (is_string type "Polygon" = true
     ∧ ∃ coordinates, get_prop geom "coordinates" = Ok coordinates
                      ∧ truthy coordinates && isArray coordinates = false) →
  render_feature style horizonIdx feat = Ok None.
Proof.
  intros Hg Hgt Ht Hcase.
  assert (truthy feat = true) as Hf by (by eapply get_prop_truthy).
  unfold render_feature. rewrite Hf, Hg. simpl. rewrite Hgt, Ht. simpl.
  destruct Hcase as [(Hp & Hpoly & Hmulti) | (Hpoly & coordinates & Hc & Hbad)].
  - by rewrite Hp, Hpoly, Hmulti.
  - assert (is_string type "Point" = false) as ->.
    { destruct type; try done. simpl in *.
      apply String.eqb_eq in Hpoly as ->. done. }
    rewrite Hpoly, Hc. simpl.
    unfold GeoPolygon, GeoPolygon_pts.
    destruct (truthy coordinates), (isArray coordinates); simpl in *; done.
Qed.

Lemma unsupported_geometry_is_skipped_witness :
  render_feature (H := sample_builtins) (disasterStyle fires) 0
    (Samples.feature
       (VObj [("type", VStr "LineString");
              ("coordinates", VArr [Samples.position 0 0; Samples.position 1 1])])
       VNull) = Ok None.
Proof.
  apply (unsupported_geometry_is_skipped (H := sample_builtins) _ _ _
           (VObj [("type", VStr "LineString");
                  ("coordinates", VArr [Samples.position 0 0; Samples.position 1 1])])
           (VStr "LineString")); [reflexivity..|].
  left. repeat split; reflexivity.
Defined.

(** ** Polygons *)

Section PolygonFacts.
Context `{Builtins}.

Lemma vertex_position (altitude : float) (p : value) :
  isArray p = true →
  vertex altitude p =
    Ok (latLongToVector3 (component 1 p) (component 0 p) altitude).
Proof. by destruct p. Qed.

Lemma GeoPolygon_ring (ring holes : list value) (c : string) (opacity altitude : float) :
  linear_ring ring →
  GeoPolygon (VArr (VArr ring :: holes)) c opacity altitude =
    Ok (Some (GeoLine
                ((λ p, latLongToVector3 (component 1 p) (component 0 p) altitude) <$> ring)
                c opacity)).
Proof.
  intros [Harr (x & more & ring' & Heq)].
  assert (GeoPolygon_pts (VArr (VArr ring :: holes)) altitude =
          array_map (vertex altitude) (VArr ring)) as Hpts by (by rewrite Heq).
  unfold GeoPolygon. rewrite Hpts. simpl.
  rewrite (mapM_result_total _
             (λ p, latLongToVector3 (component 1 p) (component 0 p) altitude)).
  - by rewrite Heq.
  - eapply Forall_impl; [exact Harr|]. intros p Hp. by apply vertex_position.
Qed.
End PolygonFacts.

(** C7. A Polygon feature is drawn from [coordinates[0]] alone, the outer
    ring: a line strip with one vertex per position of that ring, each
    projected at altitude [0.01 + horizonIndex * 0.002]; the holes play no
    part. A MultiPolygon feature is drawn from its first polygon alone, by the
    same rule. *)
Theorem polygon_outer_ring_only `{Builtins} (d : DisasterKind) (horizonIdx : nat)
    (feat geom : value) (ring holes others : list value) :
  get_prop feat "geometry" = Ok geom →
  linear_ring ring →
  (get_prop geom "type" = Ok (VStr "Polygon")
     ∧ get_prop geom "coordinates" = Ok (VArr (VArr ring :: holes)))
  ∨ (get_prop geom "type" = Ok (VStr "MultiPolygon")
     ∧ get_prop geom "coordinates" = Ok (VArr (VArr (VArr ring :: holes) :: others))) →
  ∃ pts,
    render_feature (disasterStyle d) horizonIdx feat =
      Ok (Some (GeoLine pts (color (disasterStyle d)) 0.22))
    ∧ length pts = length ring
    ∧ pts = (λ p, latLongToVector3 (component 1 p) (component 0 p)
                    (0.01 + Number_of_nat horizonIdx * 0.002)) <$> ring.
Proof.
  intros Hg Hring Hcase. eexists. split; [|split; [|reflexivity]].
  - assert (∃ fields, geom = VObj fields) as [gf ->].
    { destruct Hcase as [[Ht _]|[Ht _]]; by eapply get_prop_string_is_obj. }
    assert (truthy feat = true) as Hf by (by eapply get_prop_truthy).
    unfold render_feature. rewrite Hf, Hg. simpl.
    destruct Hcase as [[Ht Hc]|[Ht Hc]]; simpl in Ht, Hc;
      injection Ht as Ht; injection Hc as Hc; rewrite Ht, Hc; simpl;
      by rewrite GeoPolygon_ring.
  - by rewrite length_fmap.
Qed.

Lemma polygon_outer_ring_only_witness :
  ∃ pts,
    render_feature (H := sample_builtins) (disasterStyle fires) 2
      (Samples.feature (Samples.polygon [VArr Samples.triangle]) VNull) =
      Ok (Some (GeoLine pts "#ff6600" 0.22))
    ∧ length pts = 4.
Proof.
  destruct (polygon_outer_ring_only (H := sample_builtins) fires 2
              (Samples.feature (Samples.polygon [VArr Samples.triangle]) VNull)
              (Samples.polygon [VArr Samples.triangle])
              Samples.triangle [] []) as (pts & Hr & Hl & _).
  - reflexivity.
  - split; [repeat constructor | by eexists _, _, _].
  - left. split; reflexivity.
  - exists pts. split; [exact Hr | exact Hl].
Defined.

(** ** Entries that are no feature *)

(** C10. An entry of a cell's feature sequence that is [null] or [undefined],
    or that has no [geometry], yields no primitive and no error, and the other
    features of the cell are rendered all the same: when the features before
    it render to the children [bs1] and those after it to [bs2], each by the
    callback, the cell renders to [bs1], a [null] child, and [bs2], in that
    order, so that its primitives are those of [bs1] followed by those of
    [bs2]. Errors included, the cell yields the primitives it would yield
    without the entry. *)
Theorem entry_without_geometry_is_skipped `{Builtins} (style : Style)
    (horizonIdx : nat) (feat : value) (before after : list value)
    (bs1 bs2 : list (option Primitive)) :
  nullish feat = true ∨ get_prop feat "geometry" = Ok VUndef →
  render_feature style horizonIdx feat = Ok None
  ∧ (Forall2 (λ f b, render_feature style horizonIdx f = Ok b) before bs1 →
     Forall2 (λ f b, render_feature style horizonIdx f = Ok b) after bs2 →
     render_features style horizonIdx (before ++ feat :: after) =
       Ok (bs1 ++ None :: bs2)
     ∧ primitives (bs1 ++ None :: bs2) = primitives bs1 ++ primitives bs2)
  ∧ primitives <$> render_features style horizonIdx (before ++ feat :: after) =
    primitives <$> render_features style horizonIdx (before ++ after).
Proof.
  intros Hskip.
  assert (render_feature style horizonIdx feat = Ok None) as Hnone.
  { unfold render_feature. destruct Hskip as [Hn|Hg].
    - by destruct feat.
    - rewrite Hg. simpl. by destruct (truthy feat). }
  split; [done|]. split.
  - intros Hbefore Hafter. split.
    + unfold render_features. rewrite mapM_result_app.
      rewrite (mapM_result_Forall2 _ _ _ Hbefore). simpl.
      rewrite Hnone, (mapM_result_Forall2 _ _ _ Hafter). done.
    + unfold primitives. by rewrite omap_app.
  - unfold render_features. rewrite !mapM_result_app. simpl. rewrite Hnone. simpl.
    destruct (mapM_result _ before) as [cs1|e]; simpl; [|done].
    destruct (mapM_result _ after) as [cs2|e]; simpl; [|done].
    unfold primitives. f_equal. by rewrite !omap_app.
Qed.

Lemma entry_without_geometry_is_skipped_witness :
  render_features (H := sample_builtins) (disasterStyle fires) 0
    ([Samples.feature (Samples.point 1 2) VNull] ++ VNull
       :: [Samples.feature (Samples.point 3 4) (Samples.with_risk 0.1)]) =
  Ok ([Some (GeoPoint (VNum 2) (VNum 1) 0.036 "#ff6600" 1.02)] ++ None
        :: [Some (GeoPoint (VNum 4) (VNum 3) 0.014 "#ff6600" 1.02)]).
Proof.
  refine (proj1 (proj1 (proj2
            (entry_without_geometry_is_skipped (H := sample_builtins)
               (disasterStyle fires) 0 VNull
               [Samples.feature (Samples.point 1 2) VNull]
               [Samples.feature (Samples.point 3 4) (Samples.with_risk 0.1)]
               [Some (GeoPoint (VNum 2) (VNum 1) 0.036 "#ff6600" 1.02)]
               [Some (GeoPoint (VNum 4) (VNum 3) 0.014 "#ff6600" 1.02)]
               (or_introl eq_refl))) _ _)).
  - repeat constructor.
  - repeat constructor.
Defined.

(** ** The prediction engine *)

(** C8. In orchestrator mode [infer] resolves with the FeatureCollection both
    when the 2xx body is an object carrying it under [geojson] and when the
    body is the bare FeatureCollection; on a status outside 200-299 it throws
    an [Error] whose message is made of the status and the body text. *)
Theorem infer_accepts_both_shapes (cfg : config) (st : Engine.state)
    (d : DisasterKind) (h : Z) (options : value) (res : Response)
    (fc_fields : list (string * value)) :
  String.eqb (mode cfg) "local" = false →
  ((200 ≤ status res ≤ 299)%Z →
     (∃ fields, json res = Ok (VObj fields) ∧ assoc "geojson" fields = VObj fc_fields)
     ∨ (json res = Ok (VObj fc_fields) ∧ assoc "geojson" fc_fields = VUndef) →
     (infer cfg st d h options (Responded res)).1 = Ok (VObj fc_fields))
  ∧ (¬ (200 ≤ status res ≤ 299)%Z →
     (infer cfg st d h options (Responded res)).1 =
       Throw (Error ("Inference request failed: " +:+ pretty (status res)
                       +:+ " " +:+ text res))).
Proof.
  intros Hmode. unfold infer. rewrite Hmode. simpl. unfold ok. split.
  - intros Hs Hshape. rewrite bool_decide_eq_true_2 by done. simpl.
    destruct Hshape as [(fields & -> & Hg) | (-> & Hg)]; simpl; by rewrite Hg.
  - intros Hs. by rewrite bool_decide_eq_false_2.
Qed.

Lemma infer_accepts_both_shapes_witness :
  (infer (engine_config "") Engine.init floods 12 (infer_options)
     (Responded {| status := 200; text := "";
                   json := Ok (VObj [("geojson", Samples.featureCollection [])]) |})).1
    = Ok (Samples.featureCollection [])
  ∧ (infer (engine_config "") Engine.init floods 12 (infer_options)
       (Responded {| status := 503; text := "busy"; json := Throw SyntaxError |})).1
    = Throw (Error "Inference request failed: 503 busy").
Proof.
  pose proof (infer_accepts_both_shapes (engine_config "") Engine.init floods 12
                infer_options
                {| status := 200; text := "";
                   json := Ok (VObj [("geojson", Samples.featureCollection [])]) |}
                [("type", VStr "FeatureCollection"); ("features", VArr [])]
                eq_refl) as [Hok _].
  pose proof (infer_accepts_both_shapes (engine_config "") Engine.init floods 12
                infer_options
                {| status := 503; text := "busy"; json := Throw SyntaxError |}
                [] eq_refl) as [_ Hfail].
  split.
  - apply Hok; [simpl; lia|]. left. eexists. split; reflexivity.
  - apply Hfail. simpl. lia.
Defined.

(** ** One call of [fetchAll] *)

Lemma cell_set_cell (d : DisasterKind) (h : Z) (features : list value)
    (p : Predictions) (d' : DisasterKind) (h' : Z) :
  cell (set_cell d h features p) d' h' =
    if decide ((d', h') = (d, h)) then Some features else cell p d' h'.
Proof.
  unfold cell, horizon_string. case_decide as Heq.
  - injection Heq as -> ->. destruct d; simpl; apply lookup_insert_eq.
  - destruct d, d'; simpl; try done; apply lookup_insert_ne;
      intros Hk; apply Heq; f_equal; by apply (inj pretty) in Hk.
Qed.

Lemma cell_foldl_untouched (l : list (Cell * fetch_outcome)) (d : DisasterKind) (h : Z) :
  ∀ p, Forall (λ co, co.1 ≠ (d, h)) l →
       cell (foldl record_cell p l) d h = cell p d h.
Proof.
  induction l as [|co l IH]; intros p Hl; simpl; [done|].
  inversion Hl as [|? ? Hco Hl']; subst.
  rewrite IH by done. unfold record_cell. rewrite cell_set_cell.
  case_decide as Heq; [|done]. destruct co as [[d' h'] o]; simpl in *. congruence.
Qed.

(** The last exchange made for a cell decides its entry. *)
Lemma cell_foldl_last (l : list (Cell * fetch_outcome)) (d : DisasterKind) (h : Z) :
  ∀ p i o,
    l !! i = Some ((d, h), o) →
    (∀ j co, i < j → l !! j = Some co → co.1 ≠ (d, h)) →
    cell (foldl record_cell p l) d h = Some (cell_features (infer_settle o)).
Proof.
  induction l as [|co l IH]; intros p i o Hi Hlast; [done|].
  destruct i as [|i]; simpl in *.
  - injection Hi as ->. rewrite cell_foldl_untouched.
    + unfold record_cell; simpl. rewrite cell_set_cell. by rewrite decide_True.
    + apply Forall_lookup. intros j co Hj. apply (Hlast (S j)); [lia | done].
  - apply (IH _ i); [done|]. intros j co' Hij Hj. apply (Hlast (S j)); [lia | done].
Qed.

Lemma cell_foldl_is_Some (l : list (Cell * fetch_outcome)) (d : DisasterKind) (h : Z) :
  ∀ p, (d, h) ∈ l.*1 → is_Some (cell (foldl record_cell p l) d h).
Proof.
  induction l as [|co l IH]; intros p Hin; simpl in *.
  - by apply elem_of_nil in Hin.
  - destruct (decide ((d, h) ∈ l.*1)) as [Hl|Hl]; [by apply IH|].
    apply elem_of_cons in Hin as [Hhd|?]; [|done].
    rewrite cell_foldl_untouched.
    + unfold record_cell. rewrite cell_set_cell, decide_True; [eauto|].
      by rewrite Hhd, <- surjective_pairing.
    + apply Forall_forall. intros co' Hco' Heq. apply Hl.
      rewrite <- Heq. by apply list_elem_of_fmap_2.
Qed.

Lemma elem_of_grid (hoursList : list Z) (d : DisasterKind) (h : Z) :
  (d, h) ∈ grid hoursList ↔ h ∈ hoursList.
Proof.
  unfold grid, disasters. rewrite list_elem_of_bind. split.
  - intros (d' & Hin & _). apply list_elem_of_fmap in Hin as (h' & Heq & Hh).
    by simplify_eq.
  - intros Hh. exists d. split.
    + apply list_elem_of_fmap. eauto.
    + destruct d; set_solver.
Qed.

Section FetchAllFacts.
Variable API_BASE : string.

(** A suspended call that is fed as many exchanges as it has cells left runs
    to the end of its loop. *)
Lemma fetchAll_loop_finishes (os : list fetch_outcome) :
  ∀ e c,
    length os = S (length (c_rest c)) →
    ∃ e',
      fetchAll_loop API_BASE e c os =
        (e', Finished {| pub_cycle := c_id c; pub_effect := c_effect c;
                         pub_hoursList := c_hoursList c;
                         pub_done := c_done c ++ zip (c_cell c :: c_rest c) os;
                         pub_snapshot :=
                           foldl record_cell (c_newPred c)
                                 (zip (c_cell c :: c_rest c) os) |})
      ∧ aborted e' = aborted e
      ∧ abortControllers e' = foldl forget (abortControllers e) (c_cell c :: c_rest c)
      ∧ requested <$> fetch_log e' = (requested <$> fetch_log e) ++ c_rest c.
Proof.
  induction os as [|o os IH]; intros e c Hlen; [done|].
  simpl. unfold resume.
  destruct (c_rest c) as [|[d h] rest] eqn:Hrest.
  - destruct os; [|done]. eexists. split; [reflexivity|].
    simpl. by rewrite app_nil_r.
  - edestruct (IH (infer_begin (engine_config API_BASE)
                     (infer_finally e (c_cell c).1 (c_cell c).2) d h infer_options))
      as (e' & Hrun & Hab & Hreg & Hlog); [|rewrite Hrun].
    { simpl in *. lia. }
    exists e'. simpl. split; [|split; [|split]].
    + by rewrite <- app_assoc.
    + by rewrite Hab.
    + rewrite Hreg. simpl. unfold forget at 2. simpl. by rewrite delete_insert_eq.
    + rewrite Hlog. simpl. rewrite fmap_app, <- app_assoc. done.
Qed.

(** A call of [fetchAll] that is fed one exchange per cell of its grid ends,
    with the snapshot of those exchanges. *)
Lemma fetchAll_finishes (e : Engine.state) (id eff : nat) (hoursList : list Z)
    (os : list fetch_outcome) :
  length os = length (grid hoursList) →
  ∃ e',
    fetchAll API_BASE e id eff hoursList os =
      (e', Finished {| pub_cycle := id; pub_effect := eff; pub_hoursList := hoursList;
                       pub_done := zip (grid hoursList) os;
                       pub_snapshot := snapshot_of (zip (grid hoursList) os) |})
    ∧ aborted e' = aborted e
    ∧ abortControllers e' = foldl forget (abortControllers e) (grid hoursList)
    ∧ requested <$> fetch_log e' = (requested <$> fetch_log e) ++ grid hoursList.
Proof.
  intros Hlen. unfold fetchAll, fetchAll_begin.
  destruct (grid hoursList) as [|[d h] rest] eqn:Hgrid.
  - destruct os; [|done]. exists e. simpl. by rewrite app_nil_r.
  - edestruct (fetchAll_loop_finishes os
                 (infer_begin (engine_config API_BASE) e d h infer_options))
      as (e' & Hrun & Hab & Hreg & Hlog); [|rewrite Hrun].
    { simpl in *. lia. }
    exists e'. simpl. split; [done|]. split; [done|]. split.
    + rewrite Hreg. simpl. unfold forget at 2. simpl. by rewrite delete_insert_eq.
    + rewrite Hlog. simpl. rewrite fmap_app, <- app_assoc. done.
Qed.
End FetchAllFacts.

(** C1. A call of [fetchAll] that gets an answer, good or bad, for each request
    of its grid runs to the end and builds a snapshot with an entry for every
    (disaster, horizon) pair. The entry of a pair is decided by the exchange
    made for it (the last one, should the horizon list repeat a horizon): it
    is the empty sequence when [infer] threw, and the [features] array of the
    payload when [infer] resolved with one - whatever happened to the other
    pairs. *)
Theorem fetchAll_covers_grid (API_BASE : string) (e : Engine.state) (id eff : nat)
    (hoursList : list Z) (os : list fetch_outcome) :
  length os = length (grid hoursList) →
  ∃ e' p,
    fetchAll API_BASE e id eff hoursList os = (e', Finished p)
    ∧ (∀ d h, h ∈ hoursList → is_Some (cell (pub_snapshot p) d h))
    ∧ (∀ i d h o,
         grid hoursList !! i = Some (d, h) →
         os !! i = Some o →
         (∀ j, i < j → grid hoursList !! j ≠ Some (d, h)) →
         (throws (infer_settle o) → cell (pub_snapshot p) d h = Some [])
         ∧ (∀ fc features,
              infer_settle o = Ok fc →
              get_prop fc "features" = Ok (VArr features) →
              cell (pub_snapshot p) d h = Some features)).
Proof.
  intros Hlen.
  destruct (fetchAll_finishes API_BASE e id eff hoursList os Hlen) as (e' & Hrun & _).
  eexists e', _. split; [exact Hrun|]. simpl. split.
  - intros d h Hh. apply cell_foldl_is_Some.
    rewrite fst_zip by lia. by apply elem_of_grid.
  - intros i d h o Hi Ho Hlast.
    assert (cell (snapshot_of (zip (grid hoursList) os)) d h =
            Some (cell_features (infer_settle o))) as Hcell.
    { apply (cell_foldl_last _ _ _ _ i).
      - apply lookup_zip_with_Some. eauto.
      - intros j co Hij Hj Heq.
        apply lookup_zip_with_Some in Hj as (c & o' & -> & Hc & _).
        simpl in Heq. subst c. by eapply Hlast. }
    rewrite Hcell. split.
    + by intros [err ->].
    + intros fc features -> Hf. simpl. rewrite Hf.
      by erewrite get_prop_truthy.
Qed.

Lemma fetchAll_covers_grid_witness :
  ∃ e' p,
    fetchAll "" Engine.init 0 0 [6; 12]%Z Samples.one_forced_error = (e', Finished p)
    ∧ cell (pub_snapshot p) floods 12 = Some []
    ∧ cell (pub_snapshot p) landslides 6 = Some [Samples.hotspot].
Proof.
  destruct (fetchAll_covers_grid "" Engine.init 0 0 [6; 12]%Z Samples.one_forced_error
              eq_refl) as (e' & p & Hrun & _ & Hcells).
  exists e', p. split; [exact Hrun|]. split.
  - refine (proj1 (Hcells 3 floods 12%Z Samples.failure eq_refl eq_refl _) _).
    + intros j Hj. do 6 (destruct j as [|j]; [first [lia | discriminate]|]). done.
    + by eexists.
  - refine (proj2 (Hcells 4 landslides 6%Z (Samples.answer [Samples.hotspot])
                     eq_refl eq_refl _) _ _ eq_refl eq_refl).
    intros j Hj. do 6 (destruct j as [|j]; [first [lia | discriminate]|]). done.
Defined.

Lemma lookup_foldl_forget (l : list Cell) (k : string) :
  ∀ m : gmap string nat,
    foldl forget m l !! k =
      if decide (k ∈ (λ c : Cell, key c.1 c.2) <$> l) then None else m !! k.
Proof.
  induction l as [|c l IH]; intros m; simpl.
  - done.
  - rewrite IH. unfold forget.
    destruct (decide (k = key c.1 c.2)) as [->|Hne].
    + rewrite lookup_delete_eq. rewrite (decide_True (P := _ ∈ _ :: _)) by left.
      by case_decide.
    + rewrite lookup_delete_ne by done.
      case_decide as Hin.
      * by rewrite decide_True by (by right).
      * rewrite decide_False; [done|]. by intros [?|?]%elem_of_cons.
Qed.

(** C9. Against a backend whose answer depends on the request alone, a poll
    cycle builds the same snapshot whatever the state it starts from; run a
    second time, from the state the first run left, it builds a value-equal
    snapshot again. Apart from issuing its requests, one per cell of the grid,
    a cycle leaves nothing behind: no controller is aborted, and nothing stays
    in the registry that was not there before. *)
Theorem runCycle_idempotent (API_BASE : string)
    (backend : DisasterKind → Z → fetch_outcome) (e : Engine.state)
    (id eff id' eff' : nat) (hoursList : list Z) :
  ∃ e1 e2 p1 p2,
    runCycle API_BASE backend e id eff hoursList = (e1, Finished p1)
    ∧ runCycle API_BASE backend e1 id' eff' hoursList = (e2, Finished p2)
    ∧ pub_snapshot p2 = pub_snapshot p1
    ∧ pub_snapshot p1 =
        snapshot_of ((λ c : Cell, (c, backend c.1 c.2)) <$> grid hoursList)
    ∧ aborted e1 = aborted e ∧ aborted e2 = aborted e1
    ∧ abortControllers e1 ⊆ abortControllers e
    ∧ abortControllers e2 = abortControllers e1
    ∧ requested <$> fetch_log e1 = (requested <$> fetch_log e) ++ grid hoursList
    ∧ requested <$> fetch_log e2 = (requested <$> fetch_log e1) ++ grid hoursList.
Proof.
  unfold runCycle.
  set (os := (λ c : Cell, backend c.1 c.2) <$> grid hoursList).
  assert (length os = length (grid hoursList)) as Hlen by apply length_fmap.
  destruct (fetchAll_finishes API_BASE e id eff hoursList os Hlen)
    as (e1 & Hrun1 & Hab1 & Hreg1 & Hlog1).
  destruct (fetchAll_finishes API_BASE e1 id' eff' hoursList os Hlen)
    as (e2 & Hrun2 & Hab2 & Hreg2 & Hlog2).
  eexists e1, e2, _, _. split; [exact Hrun1|]. split; [exact Hrun2|]. simpl.
  split; [done|]. split.
  { f_equal. unfold os. rewrite zip_with_fmap_r.
    rewrite zip_with_diag. done. }
  repeat split; try done.
  - rewrite Hreg1. apply map_subseteq_spec. intros k c.
    rewrite lookup_foldl_forget. by case_decide.
  - rewrite Hreg2, Hreg1. apply map_eq. intros k.
    rewrite !lookup_foldl_forget. by case_decide.
Qed.

(** ** The polling effect as a state machine *)

Lemma snapshot_of_snoc (done : list (Cell * fetch_outcome)) (co : Cell * fetch_outcome) :
  snapshot_of (done ++ [co]) = record_cell (snapshot_of done) co.
Proof. unfold snapshot_of. by rewrite foldl_snoc. Qed.

Lemma id_not_in_delete {A} (f : A → nat) (l : list A) (i : nat) (x : A) :
  NoDup (f <$> l) → l !! i = Some x → f x ∉ f <$> delete i l.
Proof.
  intros Hnd Hi.
  assert ((f <$> l) !! i = Some (f x)) as Hfi by (by rewrite list_lookup_fmap, Hi).
  rewrite list_fmap_delete, delete_take_drop.
  rewrite <- (take_drop_middle _ _ _ Hfi) in Hnd.
  apply NoDup_app in Hnd as (_ & Hl & Hr). apply NoDup_cons in Hr as [Hr _].
  intros [Hin|Hin]%elem_of_app; [by apply (Hl _ Hin); left | done].
Qed.

Section PollingFacts.
Variable API_BASE : string.

Lemma resume_suspended (e e' : Engine.state) (c c' : Cycle) (o : fetch_outcome) :
  resume API_BASE e c o = (e', Suspended c') →
  c_id c' = c_id c ∧ c_effect c' = c_effect c
  ∧ c_rest c = c_cell c' :: c_rest c'
  ∧ (cycle_consistent c → cycle_consistent c').
Proof.
  unfold resume. destruct (c_rest c) as [|[d h] rest] eqn:Hrest; [done|].
  intros [= <- <-]. simpl. split; [done|]. split; [done|]. split; [done|].
  intros [Hg Hn]. split; simpl.
  - by rewrite Hg, Hrest, fmap_app, <- app_assoc.
  - by rewrite snapshot_of_snoc, <- Hn.
Qed.

Lemma resume_finished (e e' : Engine.state) (c : Cycle) (p : Publication)
    (o : fetch_outcome) :
  resume API_BASE e c o = (e', Finished p) →
  c_rest c = [] ∧ pub_cycle p = c_id c ∧ pub_effect p = c_effect c
  ∧ (cycle_consistent c → complete p).
Proof.
  unfold resume. destruct (c_rest c) as [|[d h] rest] eqn:Hrest; [|done].
  intros [= <- <-]. simpl. split; [done|]. split; [done|]. split; [done|].
  intros [Hg Hn]. split; simpl.
  - by rewrite Hg, Hrest, fmap_app.
  - by rewrite snapshot_of_snoc, <- Hn.
Qed.

Lemma invariant_init : invariant init.
Proof. split; simpl; try done; constructor. Qed.

(** Publishing, or not, the snapshot of a call that is no longer suspended. *)
Lemma invariant_finish (s : state) (p : Publication) :
  invariant s →
  pub_cycle p < next_cycle s →
  pub_cycle p ∉ c_id <$> cycles s →
  pub_cycle p ∉ pub_cycle <$> published s →
  complete p →
  invariant (finish s p).
Proof.
  intros [] Hlt Hcy Hpub Hcomplete. unfold finish.
  destruct (mounted s (pub_effect p)); [|done].
  split; simpl; try done.
  - by constructor.
  - by apply NoDup_cons.
  - by constructor.
Qed.

Lemma invariant_call_fetchAll (s : state) (eff : nat) (hoursList : list Z) :
  invariant s → invariant (call_fetchAll API_BASE s eff hoursList).
Proof.
  intros Hinv. pose proof Hinv as [].
  assert (next_cycle s ∉ c_id <$> cycles s) as Hfresh.
  { intros (c & Hid & Hc)%list_elem_of_fmap.
    eapply Forall_forall in inv_ids0; [|done]. lia. }
  assert (next_cycle s ∉ pub_cycle <$> published s) as Hfresh'.
  { intros (p & Hid & Hp)%list_elem_of_fmap.
    eapply Forall_forall in inv_pub_ids0 as [? _]; [|done]. lia. }
  unfold call_fetchAll, fetchAll_begin.
  destruct (grid hoursList) as [|[d h] rest] eqn:Hgrid.
  - apply invariant_finish; simpl; try done; try lia.
    split; simpl; try done.
    + eapply Forall_impl; [exact inv_ids0|]. simpl. lia.
    + eapply Forall_impl; [exact inv_pub_ids0|]. simpl.
      intros ? []. split; [lia | done].
  - split; simpl; try done.
    + apply Forall_app. split; [|by repeat constructor].
      eapply Forall_impl; [exact inv_ids0|]. simpl. lia.
    + rewrite fmap_app. apply NoDup_app. split; [done|]. split.
      * intros x Hx ->%list_elem_of_singleton. done.
      * apply NoDup_singleton.
    + eapply Forall_impl; [exact inv_pub_ids0|]. simpl.
      intros p [Hlt Hnin]. split; [lia|].
      rewrite fmap_app. intros [?|Heq%list_elem_of_singleton]%elem_of_app; [done|].
      simpl in Heq. lia.
    + apply Forall_app. split; [done|]. repeat constructor; simpl; by rewrite ?Hgrid.
Qed.

Lemma invariant_step (s : state) (ev : event) :
  invariant s → invariant (step API_BASE s ev).
Proof.
  intros Hinv. destruct ev as [hoursList| | | |i o]; simpl.
  - apply invariant_call_fetchAll. by destruct Hinv.
  - destruct (live s) as [[eff hoursList]|]; [|done].
    by apply invariant_call_fetchAll.
  - by destruct Hinv.
  - by destruct Hinv.
  - destruct (cycles s !! i) as [c|] eqn:Hi; [|done].
    pose proof Hinv as [].
    assert (cycle_consistent c) as Hc.
    { eapply Forall_forall in inv_cycles0; [done|]. by eapply list_elem_of_lookup_2. }
    assert (c_id c < next_cycle s) as Hlt.
    { eapply Forall_forall in inv_ids0; [done|]. by eapply list_elem_of_lookup_2. }
    match goal with |- context [resume _ _ _ ?o'] => generalize o' end. intros o'.
    destruct (resume API_BASE (engine s) c o') as [e [c'|p]] eqn:Hres.
    + apply resume_suspended in Hres as (Hid & _ & _ & Hcons).
      assert (c_id <$> <[i:=c']> (cycles s) = c_id <$> cycles s) as Hids.
      { rewrite list_fmap_insert, Hid. apply list_insert_id.
        by rewrite list_lookup_fmap, Hi. }
      split; simpl; rewrite ?Hids; try done.
      * apply Forall_insert; [done | lia].
      * apply Forall_insert; [done | auto].
    + apply resume_finished in Hres as (_ & Hid & _ & Hcomplete).
      apply invariant_finish; simpl; rewrite ?Hid; try done; auto.
      * split; simpl; try done.
        -- by apply Forall_delete.
        -- rewrite list_fmap_delete.
           eapply sublist_NoDup; [exact inv_nodup0 | apply sublist_delete].
        -- eapply Forall_impl; [exact inv_pub_ids0|]. simpl.
           intros p' [? Hnin]. split; [done|].
           intros Hin. apply Hnin. rewrite list_fmap_delete in Hin.
           by eapply list_elem_of_delete_inv.
        -- by apply Forall_delete.
      * by apply id_not_in_delete.
      * intros (p' & Heq & Hp')%list_elem_of_fmap.
        eapply Forall_forall in inv_pub_ids0 as [_ Hnin]; [|done].
        apply Hnin. rewrite <- Heq. apply list_elem_of_fmap_2.
        by eapply list_elem_of_lookup_2.
Qed.

Lemma invariant_run (evs : list event) :
  ∀ s, invariant s → invariant (run API_BASE s evs).
Proof.
  induction evs as [|ev evs IH]; intros s Hinv; [done|].
  simpl. apply IH. by apply invariant_step.
Qed.
End PollingFacts.

(** The event-driven machine and [fetchAll] run on its own agree: settling,
    one after the other, the requests of the only call in flight - no
    controller having been aborted, its effect being mounted - walks that call
    through [fetchAll_loop] and publishes what it built. *)
Lemma run_single_cycle (API_BASE : string) (os : list fetch_outcome) :
  ∀ s c,
    cycles s = [c] →
    aborted (engine s) = ∅ →
    mounted s (c_effect c) = true →
    length os = S (length (c_rest c)) →
    ∃ e' p,
      fetchAll_loop API_BASE (engine s) c os = (e', Finished p)
      ∧ cycles (run API_BASE s (Settle 0 <$> os)) = []
      ∧ published (run API_BASE s (Settle 0 <$> os)) = p :: published s
      ∧ predictions (run API_BASE s (Settle 0 <$> os)) = pub_snapshot p.
Proof.
  induction os as [|o os IH]; intros s c Hc Hab Hm Hlen; [done|].
  simpl. rewrite Hc. simpl. rewrite Hab.
  rewrite bool_decide_eq_false_2 by apply not_elem_of_empty.
  destruct (resume API_BASE (engine s) c o) as [e [c'|p]] eqn:Hres.
  - pose proof Hres as (_ & Heff & Hrest & _)%resume_suspended.
    edestruct (IH {| engine := e; predictions := predictions s; live := live s;
                     next_effect := next_effect s; next_cycle := next_cycle s;
                     cycles := [c']; published := published s |} c')
      as (e' & p & Hrun & Hcy & Hpub & Hpred); simpl; try done.
    + revert Hres. unfold resume. destruct (c_rest c) as [|[] ?]; [done|].
      by intros [= <- _].
    + unfold mounted in *. simpl. by rewrite Heff.
    + rewrite Hrest in Hlen. simpl in Hlen. lia.
    + exists e', p.
      split; [exact Hrun | split; [exact Hcy | split; [exact Hpub | exact Hpred]]].
  - pose proof Hres as (Hrest & _ & Heff & _)%resume_finished.
    rewrite Hrest in Hlen. destruct os; [|done]. simpl.
    exists e, p. split; [done|].
    unfold finish, mounted in *. simpl. rewrite Heff, Hm. done.
Qed.

(** C2 as stated fails: a cycle does not always publish. Here the overlay is
    switched off while the only cycle is in flight; the cycle goes on, gets
    its three answers and ends, and nothing is ever published. *)
Lemma cycle_cleaned_up_midway_publishes_nothing :
  let s := run "" init
             [EffectRun [6%Z]; EffectCleanup;
              Settle 0 (Samples.answer [Samples.hotspot]);
              Settle 0 (Samples.answer [Samples.hotspot]);
              Settle 0 (Samples.answer [Samples.hotspot])] in
  cycles s = []
  ∧ requested <$> fetch_log (engine s) = [(fires, 6%Z); (floods, 6%Z); (landslides, 6%Z)]
  ∧ published s = []
  ∧ predictions s = emptyPredictions.
Proof. vm_compute. done. Qed.

(** C2 (as amended). In every reachable state, each snapshot ever published
    is that of one call of [fetchAll] which had seen an exchange for every
    cell of its grid, and is built from those exchanges alone; no call has
    published twice; and the React state is the snapshot published last. When
    the [infer] awaited by a suspended call settles and cells remain, nothing
    is published; when the last cell settles, the call ends and publishes its
    snapshot, replacing the whole React state, if its effect is still mounted,
    and publishes nothing if it is not. *)
Theorem snapshot_published_whole (API_BASE : string) (evs : list event) :
  let s := run API_BASE init evs in
  (NoDup (pub_cycle <$> published s)
   ∧ Forall complete (published s)
   ∧ predictions s = latest s)
  ∧ ∀ i c o,
      cycles s !! i = Some c →
      let s' := step API_BASE s (Settle i o) in
      (c_rest c ≠ [] → published s' = published s ∧ predictions s' = predictions s)
      ∧ (c_rest c = [] →
           (c_id c ∉ c_id <$> cycles s')
           ∧ (if mounted s (c_effect c)
              then ∃ p, published s' = p :: published s
                        ∧ pub_cycle p = c_id c
                        ∧ predictions s' = pub_snapshot p
              else published s' = published s ∧ predictions s' = predictions s)).
Proof.
  intros s.
  assert (invariant s) as Hinv by apply invariant_run, invariant_init.
  split; [by destruct Hinv|].
  intros i c o Hi. simpl. rewrite Hi.
  match goal with |- context [resume _ _ _ ?o'] => generalize o' end. intros o'.
  destruct (resume API_BASE (engine s) c o') as [e [c'|p]] eqn:Hres.
  - apply resume_suspended in Hres as (_ & _ & Hrest & _). simpl.
    split; [done|]. intros Hnil. by rewrite Hnil in Hrest.
  - apply resume_finished in Hres as (Hrest & Hid & Heff & _).
    split; [done|]. intros _.
    unfold finish, mounted. simpl. rewrite Heff.
    fold (mounted s (c_effect c)).
    destruct (mounted s (c_effect c)); simpl.
    + split; [apply id_not_in_delete; [by destruct Hinv | done]|]. eauto.
    + split; [apply id_not_in_delete; [by destruct Hinv | done]|]. done.
Qed.

Lemma snapshot_published_whole_witness :
  let s := run "" init
             [EffectRun [6%Z];
              Settle 0 (Samples.answer [Samples.hotspot]);
              Settle 0 Samples.failure] in
  ∃ c, cycles s !! 0 = Some c
       ∧ ∃ p, published (step "" s (Settle 0 (Samples.answer []))) = [p]
              ∧ pub_cycle p = c_id c.
Proof.
  intros s.
  destruct (cycles s !! 0) as [c|] eqn:Hc; [|by vm_compute in Hc].
  exists c. split; [done|].
  destruct (snapshot_published_whole "" 
              [EffectRun [6%Z];
               Settle 0 (Samples.answer [Samples.hotspot]);
               Settle 0 Samples.failure]) as [_ Hlocal].
  destruct (Hlocal 0 c (Samples.answer []) Hc) as [_ Hlast].
  assert (c_rest c = []) as Hrest.
  { vm_compute in Hc. by injection Hc as <-. }
  destruct (Hlast Hrest) as [_ Hpub].
  assert (mounted s (c_effect c) = true) as Hm.
  { vm_compute in Hc. by injection Hc as <-. }
  fold s in Hpub. rewrite Hm in Hpub.
  destruct Hpub as (p & Hp & Hid & _). exists p. split; [|done].
  rewrite Hp. reflexivity.
Defined.

(** ** Stopping *)

Lemma elem_of_abort_all (l : list nat) (A : gset nat) (c : nat) :
  c ∈ foldr (λ c acc, {[c]} ∪ acc) A l ↔ c ∈ l ∨ c ∈ A.
Proof.
  induction l as [|c' l IH]; simpl.
  - split; [by right | intros [Hin|?]; [by apply elem_of_nil in Hin | done]].
  - rewrite elem_of_union, elem_of_singleton, IH, elem_of_cons. tauto.
Qed.

Section StoppingFacts.
Variable API_BASE : string.

(** With no effect mounted, an event other than a new run of the effect
    starts no call of [fetchAll] and publishes nothing. *)
Lemma step_while_stopped (s : state) (ev : event) :
  live s = None →
  is_EffectRun ev = false →
  live (step API_BASE s ev) = None
  ∧ next_cycle (step API_BASE s ev) = next_cycle s
  ∧ published (step API_BASE s ev) = published s
  ∧ predictions (step API_BASE s ev) = predictions s.
Proof.
  intros Hlive Hev. destruct ev as [hoursList| | | |i o]; simpl; try done.
  - by rewrite Hlive.
  - destruct (cycles s !! i) as [c|]; [|done].
    match goal with |- context [resume _ _ _ ?o'] => generalize o' end. intros o'.
    destruct (resume API_BASE (engine s) c o') as [e [c'|p]]; [done|].
    unfold finish, mounted. simpl. by rewrite Hlive.
Qed.

Lemma run_while_stopped (evs : list event) :
  ∀ s,
    live s = None →
    Forall (λ ev, is_EffectRun ev = false) evs →
    live (run API_BASE s evs) = None
    ∧ next_cycle (run API_BASE s evs) = next_cycle s
    ∧ published (run API_BASE s evs) = published s
    ∧ predictions (run API_BASE s evs) = predictions s.
Proof.
  induction evs as [|ev evs IH]; intros s Hlive Hevs; [done|].
  inversion Hevs as [|? ? Hev Hevs']; subst. simpl.
  destruct (step_while_stopped s ev Hlive Hev) as (Hl & Hn & Hp & Hq).
  destruct (IH _ Hl Hevs') as (Hl' & Hn' & Hp' & Hq').
  by rewrite Hl', Hn', Hp', Hq', Hn, Hp, Hq.
Qed.
End StoppingFacts.

(** C4 as stated fails. With horizons 6 and 12 and the request for
    (fires, 6) in flight on controller 0, disabling the overlay aborts
    nothing, and the suspended call goes on to request (fires, 12) once its
    answer is in. Unmounting does abort controller 0, and still the call
    goes on to request (fires, 12). *)
Lemma stop_neither_cancels_nor_quiesces :
  let s := step "" init (EffectRun [6; 12]%Z) in
  let disabled := step "" s EffectCleanup in
  let unmounted := run "" s unmount in
  let answer := Samples.answer [Samples.hotspot] in
  c_controller <$> cycles s = [0]
  ∧ requested <$> fetch_log (engine s) = [(fires, 6%Z)]
  ∧ (0 ∉ aborted (engine disabled))
  ∧ requested <$> fetch_log (engine (step "" disabled (Settle 0 answer))) =
      [(fires, 6%Z); (fires, 12%Z)]
  ∧ 0 ∈ aborted (engine unmounted)
  ∧ requested <$> fetch_log (engine (step "" unmounted (Settle 0 answer))) =
      [(fires, 6%Z); (fires, 12%Z)].
Proof.
  simpl. split; [reflexivity|]. split; [reflexivity|].
  split; [apply not_elem_of_empty|]. split; [reflexivity|].
  split; [|reflexivity].
  unfold Engine.cleanup; simpl. apply elem_of_abort_all. left.
  apply list_elem_of_fmap. exists (key fires 6, 0). split; [done|].
  apply elem_of_map_to_list. apply lookup_insert_eq.
Qed.

(** C4 (as amended). Once the cleanup of the polling effect has returned
    - on disabling as on unmounting - and until the effect is run again, the
    interval is cleared, so that no further call of [fetchAll] is started, and
    no snapshot is published: the React state stays what it was. On
    unmounting, the cleanup of the engine has moreover called [abort] on every
    controller in the registry and left the registry empty. Both cleanups are
    total: neither can throw. *)
Theorem cleanup_stops_polling (API_BASE : string) (s : state) (evs : list event) :
  Forall (λ ev, is_EffectRun ev = false) evs →
  let stopped := step API_BASE s EffectCleanup in
  let s' := run API_BASE stopped evs in
  (live s' = None
   ∧ next_cycle s' = next_cycle stopped
   ∧ published s' = published stopped
   ∧ predictions s' = predictions stopped)
  ∧ (∀ k c, abortControllers (engine s) !! k = Some c →
            c ∈ aborted (engine (step API_BASE s EngineCleanup)))
  ∧ abortControllers (engine (step API_BASE s EngineCleanup)) = ∅.
Proof.
  intros Hevs stopped s'. split; [|split].
  - by apply run_while_stopped.
  - intros k c Hk. simpl. apply elem_of_abort_all. left.
    apply list_elem_of_fmap. exists (k, c). split; [done|].
    by apply elem_of_map_to_list.
  - done.
Qed.

Lemma cleanup_stops_polling_witness :
  let s := step "" init (EffectRun [6; 12]%Z) in
  let s' := run "" (step "" s EffectCleanup)
              [TimerFire; Settle 0 (Samples.answer [Samples.hotspot]); TimerFire] in
  next_cycle s' = 1 ∧ published s' = [] ∧ predictions s' = emptyPredictions.
Proof.
  intros s s'.
  destruct (cleanup_stops_polling "" s
              [TimerFire; Settle 0 (Samples.answer [Samples.hotspot]); TimerFire])
    as [(_ & Hn & Hp & Hq) _].
  - repeat constructor.
  - fold s' in Hn, Hp, Hq. rewrite Hn, Hp, Hq. by vm_compute.
Defined.

(** * Further properties of the code *)

(** ** The engine's registry *)

(** X1. The registry key tells the cells apart: two requests share a key only
    when they are for the same disaster kind and the same horizon. *)
Theorem key_inj (d d' : DisasterKind) (h h' : Z) :
  key d h = key d' h' → d = d' ∧ h = h'.
Proof.
  unfold key, horizon_string.
  destruct d, d'; simpl; intros Heq; simplify_eq;
    split; try done; by apply (inj pretty).
Qed.

Lemma key_inj_witness : fires = fires ∧ 6%Z = 6%Z.
Proof. exact (key_inj fires fires 6 6 eq_refl). Defined.

Lemma key_ne (d d' : DisasterKind) (h h' : Z) :
  (d', h') ≠ (d, h) → key d' h' ≠ key d h.
Proof.
  unfold key, horizon_string.
  destruct d, d'; simpl; intros Hne Hk; simplify_eq;
    apply Hne; f_equal; by apply (inj pretty).
Qed.

(** X2. In orchestrator mode a call of [infer], however its exchange ends,
    leaves no handle under its own key, leaves the handles of the other cells
    alone, aborts nothing, and has made exactly one request: to
    [apiBase + "/api/ai/infer"], for its cell, with the options it was given
    and the signal of a controller of its own. *)
Theorem infer_leaves_no_handle (cfg : config) (st : Engine.state)
    (d : DisasterKind) (h : Z) (options : value) (o : fetch_outcome) :
  String.eqb (mode cfg) "local" = false →
  let st' := (infer cfg st d h options o).2 in
  abortControllers st' !! key d h = None
  ∧ (∀ d' h', (d', h') ≠ (d, h) →
       abortControllers st' !! key d' h' = abortControllers st !! key d' h')
  ∧ aborted st' = aborted st
  ∧ fetch_log st' =
      fetch_log st ++
        [ {| req_url := apiBase cfg +:+ "/api/ai/infer";
             req_disaster := d; req_horizonHours := h;
             req_options := options; req_signal := next_controller st |} ].
Proof.
  intros Hmode. unfold infer. rewrite Hmode. simpl.
  split; [apply lookup_delete_eq|]. split; [|done].
  intros d' h' Hne.
  rewrite lookup_delete_ne by (apply not_eq_sym; by apply key_ne).
  rewrite lookup_insert_ne by (apply not_eq_sym; by apply key_ne). done.
Qed.

Lemma infer_leaves_no_handle_witness :
  abortControllers
    (infer (engine_config "") Engine.init floods 12 infer_options Samples.failure).2
    !! key floods 12 = None.
Proof.
  exact (proj1 (infer_leaves_no_handle (engine_config "") Engine.init floods 12
                  infer_options Samples.failure eq_refl)).
Defined.

(** X3. In local mode [infer] makes no request and touches neither the
    registry nor any controller. It resolves with the empty FeatureCollection
    when [modelUrls] has a truthy entry for the disaster kind, and otherwise
    throws the [Error] that names the disaster kind. *)
Theorem infer_local_is_offline (cfg : config) (st : Engine.state)
    (d : DisasterKind) (h : Z) (options : value) (o : fetch_outcome) :
  String.eqb (mode cfg) "local" = true →
  (infer cfg st d h options o).2 = st
  ∧ (truthy (modelUrls cfg) = true →
     (∃ url, get_prop (modelUrls cfg) (disaster_name d) = Ok url ∧ truthy url = true) →
     (infer cfg st d h options o).1 = Ok emptyFeatureCollection)
  ∧ (truthy (modelUrls cfg) = false
     ∨ (∃ url, get_prop (modelUrls cfg) (disaster_name d) = Ok url ∧ truthy url = false) →
     (infer cfg st d h options o).1 =
       Throw (Error ("No local model URL supplied for disaster: " +:+ disaster_name d))).
Proof.
  intros Hmode. unfold infer. rewrite Hmode. simpl. split; [done|].
  unfold infer_local. split.
  - intros Hm (url & Hurl & Ht). rewrite Hm, Hurl. simpl. by rewrite Ht.
  - intros [Hm | (url & Hurl & Ht)].
    + by rewrite Hm.
    + destruct (truthy (modelUrls cfg)); [|done]. rewrite Hurl. simpl. by rewrite Ht.
Qed.

Lemma infer_local_is_offline_witness :
  (infer {| mode := "local"; apiBase := "";
            modelUrls := VObj [("fires", VStr "/models/fires.json")] |}
     Engine.init fires 6 (VObj []) Samples.failure).1 = Ok emptyFeatureCollection
  ∧ (infer {| mode := "local"; apiBase := "";
              modelUrls := VObj [("fires", VStr "/models/fires.json")] |}
       Engine.init floods 6 (VObj []) Samples.failure).1 =
    Throw (Error "No local model URL supplied for disaster: floods").
Proof.
  split.
  - refine (proj1 (proj2 (infer_local_is_offline
                     {| mode := "local"; apiBase := "";
                        modelUrls := VObj [("fires", VStr "/models/fires.json")] |}
                     Engine.init fires 6 (VObj []) Samples.failure eq_refl)) eq_refl _).
    by eexists.
  - refine (proj2 (proj2 (infer_local_is_offline
                     {| mode := "local"; apiBase := "";
                        modelUrls := VObj [("fires", VStr "/models/fires.json")] |}
                     Engine.init floods 6 (VObj []) Samples.failure eq_refl)) _).
    right. by eexists.
Defined.

(** X4. [cancel] is a no-op when nothing is registered under the key. Right
    after a call has registered its controller, [cancel] for its cell aborts
    exactly that controller and leaves the registry as it is, whereas [cancel]
    for any other cell cannot abort it. *)
Theorem cancel_targets_one_cell (cfg : config) (st : Engine.state)
    (d : DisasterKind) (h : Z) (options : value) :
  fresh st →
  (abortControllers st !! key d h = None → cancel st d h = st)
  ∧ cancel (infer_begin cfg st d h options) d h =
      abort (infer_begin cfg st d h options) (next_controller st)
  ∧ ∀ d' h', (d', h') ≠ (d, h) →
      next_controller st ∉ aborted (cancel (infer_begin cfg st d h options) d' h').
Proof.
  intros (Hreg & Hab & _). split; [|split].
  - intros Hnone. unfold cancel. by rewrite Hnone.
  - unfold cancel. simpl. by rewrite lookup_insert_eq.
  - intros d' h' Hne. unfold cancel. simpl.
    rewrite lookup_insert_ne by (apply not_eq_sym; by apply key_ne).
    destruct (abortControllers st !! key d' h') as [c|] eqn:Hc; simpl.
    + apply Hreg in Hc. intros [Heq%elem_of_singleton | Hin%Hab]%elem_of_union; lia.
    + intros Hin%Hab. lia.
Qed.

Lemma fresh_init : fresh Engine.init.
Proof.
  split; [|split; [|split]]; simpl.
  - intros k c Hk. by rewrite lookup_empty in Hk.
  - intros c Hc. by apply not_elem_of_empty in Hc.
  - constructor.
  - constructor.
Qed.

Lemma cancel_targets_one_cell_witness :
  cancel (infer_begin (engine_config "") Engine.init fires 6 infer_options) fires 6 =
    abort (infer_begin (engine_config "") Engine.init fires 6 infer_options) 0.
Proof.
  exact (proj1 (proj2 (cancel_targets_one_cell (engine_config "") Engine.init fires 6
                         infer_options fresh_init))).
Defined.

(** X5. Two calls of [infer] for the same cell that overlap share one
    registry slot. Once the second has registered, the slot holds the second
    controller, so [cancel] no longer reaches the first; and once the first
    has settled, its [finally] has removed the slot, so that neither [cancel]
    nor the cleanup on unmount aborts the second call, although it is still
    in flight. *)
Theorem overlapping_calls_share_a_slot (cfg : config) (st : Engine.state)
    (d : DisasterKind) (h : Z) (options1 options2 : value) :
  fresh st →
  let first := next_controller st in
  let second := S (next_controller st) in
  let st2 := infer_begin cfg (infer_begin cfg st d h options1) d h options2 in
  let st3 := infer_finally st2 d h in
  abortControllers st2 !! key d h = Some second
  ∧ (first ∉ aborted (cancel st2 d h))
  ∧ abortControllers st3 !! key d h = None
  ∧ cancel st3 d h = st3
  ∧ second ∉ aborted (Engine.cleanup st3).
Proof.
  intros (Hreg & Hab & _) first second st2 st3.
  split; [apply lookup_insert_eq|]. split; [|split; [apply lookup_delete_eq|split]].
  - unfold cancel, st2. simpl. rewrite lookup_insert_eq. simpl.
    intros [Heq%elem_of_singleton | Hin%Hab]%elem_of_union; unfold first in *; lia.
  - unfold cancel, st3, st2. simpl. by rewrite lookup_delete_eq.
  - unfold st3, st2. simpl. rewrite elem_of_abort_all.
    intros [Hin | Hin%Hab]; [|unfold second in *; lia].
    apply list_elem_of_fmap in Hin as ([k c] & Hc & Hin). simpl in Hc. subst c.
    apply elem_of_map_to_list in Hin.
    apply lookup_delete_Some in Hin as [Hk Hin].
    rewrite !lookup_insert_ne in Hin by done.
    apply Hreg in Hin. unfold second in *. lia.
Qed.

Lemma overlapping_calls_share_a_slot_witness :
  1 ∉ aborted
        (Engine.cleanup
           (infer_finally
              (infer_begin (engine_config "")
                 (infer_begin (engine_config "") Engine.init fires 6 infer_options)
                 fires 6 infer_options) fires 6)).
Proof.
  exact (proj2 (proj2 (proj2 (proj2
           (overlapping_calls_share_a_slot (engine_config "") Engine.init fires 6
              infer_options infer_options fresh_init))))).
Defined.

(** X6. The cleanup on unmount is idempotent, and it only ever adds to the
    aborted controllers: what was aborted stays aborted, and the log of
    requests is not touched. *)
Theorem cleanup_idempotent (st : Engine.state) :
  Engine.cleanup (Engine.cleanup st) = Engine.cleanup st
  ∧ aborted st ⊆ aborted (Engine.cleanup st)
  ∧ fetch_log (Engine.cleanup st) = fetch_log st.
Proof.
  split; [|split; [|done]].
  - unfold Engine.cleanup. simpl. by rewrite map_to_list_empty.
  - intros c Hc. simpl. apply elem_of_abort_all. by right.
Qed.

(** X7. A response with a status in 200-299 still makes [infer] throw in
    exactly two cases: its body does not parse as JSON, or it parses to
    [null] (reading [geojson] off it is a [TypeError]). Any other parsed
    body makes [infer] resolve. *)
Theorem infer_settle_2xx_failures (res : Response) :
  (200 ≤ status res ≤ 299)%Z →
  (throws (infer_settle (Responded res)) ↔
     throws (json res) ∨ ∃ body, json res = Ok body ∧ nullish body = true)
  ∧ (∀ body, json res = Ok body → nullish body = true →
       infer_settle (Responded res) = Throw TypeError).
Proof.
  intros Hs. unfold infer_settle, ok. rewrite bool_decide_eq_true_2 by done. simpl.
  split.
  - split.
    + destruct (json res) as [body|e]; simpl; [|intros _; left; by eexists].
      destruct body; simpl; intros [e He]; try done; right; by eexists.
    + intros [[e ->] | (body & -> & Hn)]; simpl; [by eexists|].
      destruct body; simpl in *; try done; by eexists.
  - intros body -> Hn. by destruct body.
Qed.

Lemma infer_settle_2xx_failures_witness :
  infer_settle (Responded {| status := 200; text := "null"; json := Ok VNull |}) =
    Throw TypeError.
Proof.
  refine (proj2 (infer_settle_2xx_failures
                   {| status := 200; text := "null"; json := Ok VNull |} _)
            VNull eq_refl eq_refl).
  simpl. lia.
Defined.

(** ** [GeoPolygon] *)

Section GeoPolygonFacts.
Context `{Builtins}.

(** X8. [GeoPolygon] copes with both nestings: handed the coordinates of a
    MultiPolygon as they are, it draws the same line as for the coordinates
    of the first polygon - the outer ring of that polygon. *)
Theorem GeoPolygon_accepts_multipolygon (ring holes others : list value)
    (c : string) (opacity altitude : float) :
  linear_ring ring →
  GeoPolygon (VArr (VArr (VArr ring :: holes) :: others)) c opacity altitude =
    GeoPolygon (VArr (VArr ring :: holes)) c opacity altitude
  ∧ GeoPolygon (VArr (VArr ring :: holes)) c opacity altitude =
    Ok (Some (GeoLine
                ((λ p, latLongToVector3 (component 1 p) (component 0 p) altitude) <$> ring)
                c opacity)).
Proof.
  intros Hring. split; [|by apply GeoPolygon_ring].
  destruct Hring as [_ (x & more & ring' & ->)]. reflexivity.
Qed.

(** X9. An array of coordinates whose first element is missing, [null] or
    [undefined] - the empty array to begin with - gets past the guard of
    [GeoPolygon] and makes it throw a [TypeError]. *)
Theorem GeoPolygon_throws_without_first_ring (elems : list value)
    (c : string) (opacity altitude : float) :
  nullish (nth 0 elems VUndef) = true →
  GeoPolygon (VArr elems) c opacity altitude = Throw TypeError.
Proof.
  intros Hn. unfold GeoPolygon, GeoPolygon_pts. simpl.
  by destruct (nth 0 elems VUndef).
Qed.

(** X10. Whatever the coordinates, [GeoPolygon] never draws an empty line:
    when it renders anything, it is a line with at least one vertex, in the
    colour and opacity it was given. *)
Theorem GeoPolygon_line_nonempty (coordinates : value) (c : string)
    (opacity altitude : float) (prim : Primitive) :
  GeoPolygon coordinates c opacity altitude = Ok (Some prim) →
  ∃ pts, prim = GeoLine pts c opacity ∧ pts ≠ [].
Proof.
  unfold GeoPolygon.
  destruct (GeoPolygon_pts coordinates altitude) as [[|v pts]|e]; simpl; [done| |done].
  intros [= <-]. by eexists.
Qed.
End GeoPolygonFacts.

Lemma GeoPolygon_accepts_multipolygon_witness :
  GeoPolygon (H := sample_builtins)
    (VArr [VArr [VArr Samples.triangle]; VArr [VArr Samples.triangle]])
    "orange" 0.5 0.01 =
  GeoPolygon (H := sample_builtins) (VArr [VArr Samples.triangle]) "orange" 0.5 0.01.
Proof.
  refine (proj1 (GeoPolygon_accepts_multipolygon (H := sample_builtins)
                   Samples.triangle [] [VArr [VArr Samples.triangle]]
                   "orange" 0.5 0.01 _)).
  split; [repeat constructor | by eexists _, _, _].
Defined.

Lemma GeoPolygon_throws_without_first_ring_witness :
  GeoPolygon (H := sample_builtins) (VArr []) "orange" 0.5 0.01 = Throw TypeError.
Proof.
  exact (GeoPolygon_throws_without_first_ring (H := sample_builtins) [] _ _ _ eq_refl).
Defined.

Lemma GeoPolygon_line_nonempty_witness :
  ∃ pts, GeoLine
           [latLongToVector3 (H := sample_builtins) (VNum 2) (VNum 1) 0.01] "orange" 0.5
         = GeoLine pts "orange" 0.5 ∧ pts ≠ [].
Proof.
  exact (GeoPolygon_line_nonempty (H := sample_builtins)
           (VArr [VArr [Samples.position 1 2]]) "orange" 0.5 0.01 _ eq_refl).
Defined.

(** ** Polygon features with degenerate coordinates *)

(** X11. The empty coordinates array is treated differently by the two
    polygon types. A Polygon feature with [coordinates: []] makes the render
    throw a [TypeError]; a MultiPolygon feature with [coordinates: []] is
    skipped; and a MultiPolygon feature without coordinates throws. *)
Theorem polygon_features_with_empty_coordinates `{Builtins} (style : Style)
    (horizonIdx : nat) (feat geom coordinates : value) :
  get_prop feat "geometry" = Ok geom →
  get_prop geom "coordinates" = Ok coordinates →
  (get_prop geom "type" = Ok (VStr "Polygon") → coordinates = VArr [] →
     render_feature style horizonIdx feat = Throw TypeError)
  ∧ (get_prop geom "type" = Ok (VStr "MultiPolygon") → coordinates = VArr [] →
     render_feature style horizonIdx feat = Ok None)
  ∧ (get_prop geom "type" = Ok (VStr "MultiPolygon") → nullish coordinates = true →
     render_feature style horizonIdx feat = Throw TypeError).
Proof.
  intros Hg Hc.
  assert (∀ t, get_prop geom "type" = Ok (VStr t) →
               truthy feat = true ∧ truthy geom = true) as Htruthy.
  { intros t Ht. destruct (get_prop_string_is_obj _ _ _ Ht) as [gf ->].
    split; [by eapply get_prop_truthy | done]. }
  repeat split; intros Ht Hcoord; destruct (Htruthy _ Ht) as [Hf Hgt];
    unfold render_feature; rewrite Hf, Hg; simpl; rewrite Hgt, Ht; simpl;
    rewrite Hc; simpl.
  - by rewrite Hcoord.
  - by rewrite Hcoord.
  - by destruct coordinates.
Qed.

Lemma polygon_features_with_empty_coordinates_witness :
  render_feature (H := sample_builtins) (disasterStyle floods) 0
    (Samples.feature (Samples.polygon []) VNull) = Throw TypeError
  ∧ render_feature (H := sample_builtins) (disasterStyle floods) 0
      (Samples.feature (Samples.multipolygon []) VNull) = Ok None.
Proof.
  split.
  - exact (proj1 (polygon_features_with_empty_coordinates (H := sample_builtins)
                    (disasterStyle floods) 0
                    (Samples.feature (Samples.polygon []) VNull)
                    (Samples.polygon []) (VArr []) eq_refl eq_refl) eq_refl eq_refl).
  - exact (proj1 (proj2 (polygon_features_with_empty_coordinates (H := sample_builtins)
                    (disasterStyle floods) 0
                    (Samples.feature (Samples.multipolygon []) VNull)
                    (Samples.multipolygon []) (VArr []) eq_refl eq_refl))
             eq_refl eq_refl).
Defined.

(** ** The size of a point *)

Lemma SFcompare_refl (x : SpecFloat.spec_float) :
  x ≠ SpecFloat.S754_nan → SpecFloat.SFcompare x x = Some Eq.
Proof.
  destruct x as [s|s| |s m e]; simpl; try done.
  - by destruct s.
  - intros _. destruct s; rewrite Z.compare_refl; f_equal.
    + by rewrite Pos.compare_cont_refl.
    + by rewrite Pos.compare_cont_refl.
Qed.

(** A number that something is below is not [NaN]. *)
Lemma ltb_not_nan (a x : float) : (a <? x)%float = true → PrimFloat.is_nan x = false.
Proof.
  rewrite FloatAxioms.ltb_spec. unfold PrimFloat.is_nan.
  rewrite FloatAxioms.eqb_spec.
  unfold SpecFloat.SFltb, SpecFloat.SFeqb. intros Hlt.
  rewrite SFcompare_refl; [done|].
  intros Hnan. rewrite Hnan in Hlt.
  by destruct (Prim2SF a).
Qed.

(** X12. The size of a point saturates: as soon as [risk * 0.08] exceeds
    0.03 - as it does for a risk of 0.376, and for the default risk 0.5 - the
    size is exactly 0.036, so that such points cannot be told apart by size. *)
Theorem point_size_saturates `{Builtins} (risk : value) :
  (0.03 <? to_number risk * 0.08)%float = true →
  point_size risk = 0.036%float
  ∧ point_size risk = point_size (VNum 0.5).
Proof.
  intros Hlt. unfold point_size, js_mul, Math_min. simpl to_number.
  rewrite (ltb_not_nan _ _ Hlt), Hlt. simpl. split; reflexivity.
Qed.

Lemma point_size_saturates_witness :
  point_size (H := sample_builtins) (VNum 0.376) = 0.036%float.
Proof.
  exact (proj1 (point_size_saturates (H := sample_builtins) (VNum 0.376) eq_refl)).
Defined.

(** ** The render of the whole overlay *)

Lemma mapM_result_ext {A B} (f g : A → result B) (l : list A) :
  (∀ a, a ∈ l → f a = g a) → mapM_result f l = mapM_result g l.
Proof.
  induction l as [|a l IH]; intros Hfg; simpl; [done|].
  rewrite (Hfg a) by left. rewrite IH; [done|].
  intros a' Ha'. apply Hfg. by right.
Qed.

Lemma mapM_result_throws {A B} (f : A → result B) (l : list A) (a : A) :
  a ∈ l → throws (f a) → throws (mapM_result f l).
Proof.
  induction l as [|a' l IH]; intros Hin Ha; [by apply elem_of_nil in Hin|].
  simpl. apply elem_of_cons in Hin as [->|Hin].
  - destruct Ha as [e ->]. by exists e.
  - destruct (f a') as [b|e]; simpl; [|by exists e].
    destruct (IH Hin Ha) as [e ->]. by exists e.
Qed.

Lemma disasters_complete (d : DisasterKind) : d ∈ disasters.
Proof. unfold disasters. destruct d; set_solver. Qed.

Section WholeRender.
Context `{Builtins}.

(** With nothing but absent or empty cells under the configured horizons,
    the overlay renders its empty groups. *)
Lemma render_of_empty_cells (hoursList : list Z) (p : Predictions) :
  (∀ d h, h ∈ hoursList → default [] (cell p d h) = []) →
  render true hoursList p = Ok (Some (empty_groups hoursList)).
Proof.
  intros Hempty. unfold render. simpl.
  rewrite (mapM_result_total _ (λ _, (λ _, []) <$> disasters)).
  - simpl. do 2 f_equal. unfold empty_groups.
    rewrite fmap_imap. apply imap_const.
  - apply Forall_forall. intros [i h] (i' & h' & [= -> ->] & Hh)%elem_of_lookup_imap.
    refine (mapM_result_total (render_group p i' h') (λ _, []) disasters _).
    apply Forall_forall. intros d _.
    unfold render_group. rewrite Hempty; [done|]. by eapply list_elem_of_lookup_2.
Qed.

(** X14. The render has no isolation between features: when the callback
    throws for one feature of one cell under a configured horizon, the render
    of the whole overlay throws, whatever the other cells hold. *)
Theorem render_throws_as_a_whole (hoursList : list Z) (p : Predictions)
    (i : nat) (h : Z) (d : DisasterKind) (features : list value) (feat : value) :
  hoursList !! i = Some h →
  cell p d h = Some features →
  feat ∈ features →
  throws (render_feature (disasterStyle d) i feat) →
  throws (render true hoursList p).
Proof.
  intros Hi Hcell Hfeat Hthrow. unfold render. cbn [negb].
  assert (throws (mapM_result
            (λ ih, mapM_result (render_group p ih.1 ih.2) disasters)
            (imap (λ i h, (i, h)) hoursList))) as [e He].
  { apply (mapM_result_throws _ _ (i, h)).
    - by apply (elem_of_lookup_imap_2 (λ i h, (i, h))).
    - refine (mapM_result_throws (render_group p i h) disasters d
                (disasters_complete d) _).
      unfold render_group, render_features. rewrite Hcell.
      by eapply mapM_result_throws. }
  rewrite He. by exists e.
Qed.

(** X15. The render looks at the cells of the configured horizons and at
    nothing else in the snapshot: two snapshots that agree on those cells
    render alike, errors included. *)
Theorem render_reads_configured_cells (enabled : bool) (hoursList : list Z)
    (p q : Predictions) :
  (∀ d h, h ∈ hoursList → cell p d h = cell q d h) →
  render enabled hoursList p = render enabled hoursList q.
Proof.
  intros Hpq. unfold render. destruct enabled; [|done]. simpl.
  rewrite (mapM_result_ext _
             (λ ih, mapM_result (render_group q ih.1 ih.2) disasters)); [done|].
  intros [i h] (i' & h' & [= -> ->] & Hh)%elem_of_lookup_imap.
  refine (mapM_result_ext (render_group p i' h') (render_group q i' h') disasters _).
  intros d _. unfold render_group.
  rewrite Hpq; [done|]. by eapply list_elem_of_lookup_2.
Qed.
End WholeRender.

Lemma render_throws_as_a_whole_witness :
  throws (render (H := sample_builtins) true [6; 12]%Z
            (set_cell floods 12 [Samples.hotspot; Samples.feature (Samples.polygon []) VNull]
               (set_cell fires 6 [Samples.hotspot] emptyPredictions))).
Proof.
  apply (render_throws_as_a_whole (H := sample_builtins) _ _ 1 12%Z floods
           [Samples.hotspot; Samples.feature (Samples.polygon []) VNull]
           (Samples.feature (Samples.polygon []) VNull)).
  - reflexivity.
  - reflexivity.
  - right. left.
  - by exists TypeError.
Defined.

Lemma render_reads_configured_cells_witness :
  render (H := sample_builtins) true [6%Z]
    (set_cell fires 24 [Samples.hotspot] emptyPredictions) =
  render (H := sample_builtins) true [6%Z] emptyPredictions.
Proof.
  apply (render_reads_configured_cells (H := sample_builtins)).
  intros d h Hh. apply list_elem_of_singleton in Hh as ->.
  rewrite cell_set_cell. by rewrite decide_False.
Defined.

(** ** Polling and rendering together *)

Lemma cell_foldl_all_empty (l : list (Cell * fetch_outcome)) (d : DisasterKind) (h : Z) :
  Forall (λ co, cell_features (infer_settle co.2) = []) l →
  ∀ p, default [] (cell p d h) = [] →
       default [] (cell (foldl record_cell p l) d h) = [].
Proof.
  induction 1 as [|co l Hco _ IH]; intros p Hp; simpl; [done|].
  apply IH. unfold record_cell. rewrite cell_set_cell.
  case_decide; [by rewrite Hco | done].
Qed.

Lemma cell_foldl_None (l : list (Cell * fetch_outcome)) (d : DisasterKind) (h : Z) :
  (d, h) ∉ l.*1 → ∀ p, cell (foldl record_cell p l) d h = cell p d h.
Proof.
  intros Hnin p. apply cell_foldl_untouched, Forall_forall.
  intros co Hco Heq. apply Hnin. rewrite <- Heq. by apply list_elem_of_fmap_2.
Qed.

(** X13. Until a first snapshot is published the overlay renders, without
    error, one empty group per disaster kind under each horizon: this holds
    in every state the component can reach in which no call of [fetchAll] has
    published yet. *)
Theorem render_before_first_publication `{Builtins} (API_BASE : string)
    (evs : list event) (hoursList : list Z) :
  published (run API_BASE init evs) = [] →
  render true hoursList (predictions (run API_BASE init evs)) =
    Ok (Some (empty_groups hoursList)).
Proof.
  intros Hpub.
  pose proof (invariant_run API_BASE evs init (invariant_init)) as [].
  rewrite inv_predictions0. unfold latest. rewrite Hpub.
  apply render_of_empty_cells. intros d h _.
  unfold cell. by destruct d.
Qed.

Lemma render_before_first_publication_witness :
  render (H := sample_builtins) true [6; 12]%Z
    (predictions (run "" init [EffectRun [6; 12]%Z; Settle 0 Samples.failure])) =
  Ok (Some [[[]; []; []]; [[]; []; []]]).
Proof.
  exact (render_before_first_publication (H := sample_builtins) ""
           [EffectRun [6; 12]%Z; Settle 0 Samples.failure] [6; 12]%Z eq_refl).
Defined.

(** X16. The worst a backend can do is an empty overlay: when [infer] throws
    for every request of a cycle, the cycle still ends, and rendering the
    snapshot it built under the same horizons gives the empty groups, without
    error. *)
Theorem failed_cycle_renders_empty `{Builtins} (API_BASE : string)
    (e : Engine.state) (id eff : nat) (hoursList : list Z) (os : list fetch_outcome) :
  length os = length (grid hoursList) →
  Forall (λ o, throws (infer_settle o)) os →
  ∃ e' p,
    fetchAll API_BASE e id eff hoursList os = (e', Finished p)
    ∧ render true hoursList (pub_snapshot p) = Ok (Some (empty_groups hoursList)).
Proof.
  intros Hlen Hfail.
  destruct (fetchAll_finishes API_BASE e id eff hoursList os Hlen) as (e' & Hrun & _).
  eexists e', _. split; [exact Hrun|]. simpl.
  apply render_of_empty_cells. intros d h _.
  apply cell_foldl_all_empty.
  - apply Forall_forall. intros [c o] Hin%elem_of_zip_r. simpl.
    eapply Forall_forall in Hfail as [err ->]; done.
  - unfold cell. by destruct d.
Qed.

Lemma failed_cycle_renders_empty_witness :
  ∃ e' p,
    fetchAll "" Engine.init 0 0 [6%Z]
      [Samples.failure; Rejected AbortError; Rejected TypeError] = (e', Finished p)
    ∧ render (H := sample_builtins) true [6%Z] (pub_snapshot p) =
        Ok (Some [[[]; []; []]]).
Proof.
  apply (failed_cycle_renders_empty (H := sample_builtins) "" Engine.init 0 0 [6%Z]
           [Samples.failure; Rejected AbortError; Rejected TypeError] eq_refl).
  repeat constructor; by eexists.
Defined.

(** X21. A published snapshot has an entry for a (disaster, horizon) pair if
    and only if the horizon is one of those the publishing call was
    configured with: in every reachable state, no published snapshot lacks a
    configured cell or carries a stray one. *)
Theorem published_snapshot_domain (API_BASE : string) (evs : list event)
    (p : Publication) (d : DisasterKind) (h : Z) :
  p ∈ published (run API_BASE init evs) →
  is_Some (cell (pub_snapshot p) d h) ↔ h ∈ pub_hoursList p.
Proof.
  intros Hp.
  pose proof (invariant_run API_BASE evs init (invariant_init)) as [].
  eapply Forall_forall in inv_published0 as [Hgrid Hsnap]; [|exact Hp].
  rewrite Hsnap, <- (elem_of_grid _ d), <- Hgrid. unfold snapshot_of. split.
  - intros Hsome. destruct (decide ((d, h) ∈ (pub_done p).*1)) as [|Hnin]; [done|].
    rewrite (cell_foldl_None _ _ _ Hnin) in Hsome.
    unfold cell in Hsome. destruct d; simpl in Hsome; by apply is_Some_None in Hsome.
  - apply cell_foldl_is_Some.
Qed.

Lemma published_snapshot_domain_witness :
  ∃ p, published
         (run "" init [EffectRun [6%Z]; Settle 0 Samples.failure;
                       Settle 0 Samples.failure; Settle 0 Samples.failure]) = [p]
       ∧ is_Some (cell (pub_snapshot p) floods 6)
       ∧ ¬ is_Some (cell (pub_snapshot p) floods 12).
Proof.
  eexists. split; [reflexivity|].
  match goal with
  | |- is_Some (cell (pub_snapshot ?p) _ _) ∧ _ =>
      pose proof (published_snapshot_domain ""
                    [EffectRun [6%Z]; Settle 0 Samples.failure;
                     Settle 0 Samples.failure; Settle 0 Samples.failure]
                    p floods 6 ltac:(left)) as H6;
      pose proof (published_snapshot_domain ""
                    [EffectRun [6%Z]; Settle 0 Samples.failure;
                     Settle 0 Samples.failure; Settle 0 Samples.failure]
                    p floods 12 ltac:(left)) as H12
  end.
  split.
  - apply H6. left.
  - intros Hs. apply H12 in Hs. apply list_elem_of_singleton in Hs. done.
Defined.

(** ** What one event can do *)

Section EventFacts.
Variable API_BASE : string.

Lemma finish_engine (s : state) (p : Publication) : engine (finish s p) = engine s.
Proof. unfold finish. by destruct (mounted s (pub_effect p)). Qed.

Lemma finish_cycles (s : state) (p : Publication) : cycles (finish s p) = cycles s.
Proof. unfold finish. by destruct (mounted s (pub_effect p)). Qed.

(** What a call of [fetchAll] does to the engine on its way to the first
    [await]. *)
Lemma fetchAll_begin_engine (e e' : Engine.state) (id eff : nat)
    (hoursList : list Z) (pr : progress) :
  fetchAll_begin API_BASE e id eff hoursList = (e', pr) →
  aborted e' = aborted e
  ∧ ∃ new, fetch_log e' = fetch_log e ++ new ∧ requested <$> new = take 1 (grid hoursList).
Proof.
  unfold fetchAll_begin. destruct (grid hoursList) as [|[d h] rest]; intros [= <- <-].
  - split; [done|]. exists []. by rewrite app_nil_r.
  - split; [done|]. by eexists [_].
Qed.

(** What a call of [fetchAll] does to the engine between two [await]s. *)
Lemma resume_engine (e e' : Engine.state) (c : Cycle) (o : fetch_outcome)
    (pr : progress) :
  resume API_BASE e c o = (e', pr) →
  aborted e' = aborted e
  ∧ ∃ new, fetch_log e' = fetch_log e ++ new ∧ requested <$> new = take 1 (c_rest c).
Proof.
  unfold resume. destruct (c_rest c) as [|[d h] rest]; intros [= <- <-].
  - split; [done|]. exists []. by rewrite app_nil_r.
  - split; [done|]. by eexists [_].
Qed.

Lemma call_fetchAll_engine (s : state) (eff : nat) (hoursList : list Z) :
  aborted (engine (call_fetchAll API_BASE s eff hoursList)) = aborted (engine s)
  ∧ ∃ new, fetch_log (engine (call_fetchAll API_BASE s eff hoursList)) =
             fetch_log (engine s) ++ new
           ∧ requested <$> new = take 1 (grid hoursList).
Proof.
  unfold call_fetchAll.
  destruct (fetchAll_begin API_BASE (engine s) (next_cycle s) eff hoursList)
    as [e [c|p]] eqn:Hbegin;
    apply fetchAll_begin_engine in Hbegin; by rewrite ?finish_engine.
Qed.

(** X17. The grid is walked one request at a time: no event, of whatever
    kind, makes the component issue more than one request, and what has been
    logged is never rewritten. *)
Theorem one_request_per_event (s : state) (ev : event) :
  ∃ new,
    fetch_log (engine (step API_BASE s ev)) = fetch_log (engine s) ++ new
    ∧ length new ≤ 1.
Proof.
  assert (∀ new (l : list Cell), requested <$> new = take 1 l → length new ≤ 1) as Hone.
  { intros new l Hnew. rewrite <- (length_fmap requested), Hnew, length_take. lia. }
  destruct ev as [hoursList| | | |i o]; simpl.
  - match goal with |- context [call_fetchAll _ ?s' _ _] =>
      destruct (call_fetchAll_engine s' (next_effect s) hoursList)
        as (_ & new & Hlog & Hnew) end.
    exists new. split; [exact Hlog | exact (Hone _ _ Hnew)].
  - destruct (live s) as [[eff hoursList]|]; [|exists []; rewrite app_nil_r; split; [done | simpl; lia]].
    destruct (call_fetchAll_engine s eff hoursList) as (_ & new & Hlog & Hnew).
    exists new. split; [exact Hlog | exact (Hone _ _ Hnew)].
  - exists []. rewrite app_nil_r. split; [done | simpl; lia].
  - exists []. rewrite app_nil_r. split; [done | simpl; lia].
  - destruct (cycles s !! i) as [c|]; [|exists []; rewrite app_nil_r; split; [done | simpl; lia]].
    match goal with |- context [resume _ _ _ ?o'] => generalize o' end. intros o'.
    destruct (resume API_BASE (engine s) c o') as [e [c'|p]] eqn:Hres;
      apply resume_engine in Hres as (_ & new & Hlog & Hnew);
      rewrite ?finish_engine; simpl;
      exists new; (split; [exact Hlog | exact (Hone _ _ Hnew)]).
Qed.

(** X18. Nothing but the cleanup of the engine ever aborts a controller:
    neither enabling, nor a tick, nor disabling, nor the settling of a
    request changes the set of aborted controllers. *)
Theorem only_engine_cleanup_aborts (s : state) (evs : list event) :
  Forall (λ ev, ev ≠ EngineCleanup) evs →
  aborted (engine (run API_BASE s evs)) = aborted (engine s).
Proof.
  revert s. induction evs as [|ev evs IH]; intros s Hevs; [done|].
  inversion Hevs as [|? ? Hev Hevs']; subst. simpl. rewrite IH by done.
  destruct ev as [hoursList| | | |i o]; simpl; try done.
  - match goal with |- context [call_fetchAll _ ?s' _ _] =>
      by destruct (call_fetchAll_engine s' (next_effect s) hoursList) as [-> _] end.
  - destruct (live s) as [[eff hoursList]|]; [|done].
    by destruct (call_fetchAll_engine s eff hoursList) as [-> _].
  - destruct (cycles s !! i) as [c|]; [|done].
    match goal with |- context [resume _ _ _ ?o'] => generalize o' end. intros o'.
    destruct (resume API_BASE (engine s) c o') as [e [c'|p]] eqn:Hres;
      apply resume_engine in Hres as [Hab _]; by rewrite ?finish_engine.
Qed.
End EventFacts.

Lemma only_engine_cleanup_aborts_witness :
  aborted (engine (run "" init
                     [EffectRun [6; 12]%Z; TimerFire; EffectCleanup;
                      Settle 0 Samples.failure; Settle 1 Samples.failure])) = ∅.
Proof.
  refine (only_engine_cleanup_aborts "" init
            [EffectRun [6; 12]%Z; TimerFire; EffectCleanup;
             Settle 0 Samples.failure; Settle 1 Samples.failure] _).
  repeat constructor; discriminate.
Defined.

(** ** Work left after a stop *)

Lemma pending_cons (c : Cycle) (l : list Cycle) :
  pending (c :: l) = length (c_rest c) + pending l.
Proof. reflexivity. Qed.

Lemma pending_insert (l : list Cycle) (i : nat) (c c' : Cycle) :
  l !! i = Some c →
  pending (<[i:=c']> l) + length (c_rest c) = pending l + length (c_rest c').
Proof.
  revert i. induction l as [|c0 l IH]; intros [|i] Hi; simpl in *; simplify_eq;
    rewrite !pending_cons; [lia|].
  specialize (IH i Hi). lia.
Qed.

Lemma pending_delete (l : list Cycle) (i : nat) (c : Cycle) :
  l !! i = Some c →
  pending (delete i l) + length (c_rest c) = pending l.
Proof.
  revert i. induction l as [|c0 l IH]; intros [|i] Hi; simpl in *; simplify_eq;
    rewrite ?pending_cons; [lia|].
  specialize (IH i Hi). lia.
Qed.

Section PendingFacts.
Variable API_BASE : string.

Lemma pending_step_while_stopped (s : state) (ev : event) :
  live s = None →
  is_EffectRun ev = false →
  length (fetch_log (engine (step API_BASE s ev))) + pending (cycles (step API_BASE s ev)) =
    length (fetch_log (engine s)) + pending (cycles s).
Proof.
  intros Hlive Hev. destruct ev as [hoursList| | | |i o]; simpl; try done.
  - by rewrite Hlive.
  - destruct (cycles s !! i) as [c|] eqn:Hi; [|done].
    match goal with |- context [resume _ _ _ ?o'] => generalize o' end. intros o'.
    unfold resume. destruct (c_rest c) as [|[d h] rest] eqn:Hrest.
    + rewrite finish_engine, finish_cycles. simpl.
      pose proof (pending_delete _ _ _ Hi) as Hp. rewrite Hrest in Hp. simpl in Hp. lia.
    + simpl. rewrite length_app. simpl.
      match goal with |- context [<[i:=?c']> _] =>
        pose proof (pending_insert _ _ _ c' Hi) as Hp end.
      rewrite Hrest in Hp. simpl in Hp. lia.
Qed.

(** X19. After the polling effect has been cleaned up, and until it runs
    again, the requests still made are exactly those that the calls in flight
    had left to make: the number of requests logged plus the number of cells
    still to be requested stays constant, so that at most [pending] further
    requests reach the network. *)
Theorem requests_after_stop_are_bounded (s : state) (evs : list event) :
  live s = None →
  Forall (λ ev, is_EffectRun ev = false) evs →
  length (fetch_log (engine (run API_BASE s evs))) + pending (cycles (run API_BASE s evs)) =
    length (fetch_log (engine s)) + pending (cycles s)
  ∧ length (fetch_log (engine (run API_BASE s evs))) ≤
      length (fetch_log (engine s)) + pending (cycles s).
Proof.
  intros Hlive Hevs.
  assert (length (fetch_log (engine (run API_BASE s evs)))
            + pending (cycles (run API_BASE s evs)) =
          length (fetch_log (engine s)) + pending (cycles s)) as Heq; [|split; [done | lia]].
  revert s Hlive. induction Hevs as [|ev evs Hev _ IH]; intros s Hlive; [done|].
  simpl. rewrite IH.
  - by apply pending_step_while_stopped.
  - by apply step_while_stopped.
Qed.
End PendingFacts.

Lemma requests_after_stop_are_bounded_witness :
  length (fetch_log (engine
            (run "" (run "" init [EffectRun [6; 12]%Z; EffectCleanup])
               [Settle 0 Samples.failure; TimerFire; Settle 0 Samples.failure]))) ≤ 1 + 5.
Proof.
  exact (proj2 (requests_after_stop_are_bounded ""
                  (run "" init [EffectRun [6; 12]%Z; EffectCleanup])
                  [Settle 0 Samples.failure; TimerFire; Settle 0 Samples.failure]
                  eq_refl ltac:(repeat constructor))).
Defined.

(** ** Ticks and empty horizon lists *)

(** X22. A tick does not wait for the cycle in flight, nor cancel it: with a
    live effect and at least one horizon, the tick starts a further call of
    [fetchAll] beside those already suspended, which are left as they are,
    and issues that call's first request, for (fires, first horizon). *)
Theorem tick_starts_an_overlapping_cycle (API_BASE : string) (s : state)
    (eff : nat) (h0 : Z) (hours : list Z) :
  live s = Some (eff, h0 :: hours) →
  ∃ c,
    cycles (step API_BASE s TimerFire) = cycles s ++ [c]
    ∧ c_effect c = eff ∧ c_cell c = (fires, h0) ∧ c_newPred c = emptyPredictions
    ∧ requested <$> fetch_log (engine (step API_BASE s TimerFire)) =
        (requested <$> fetch_log (engine s)) ++ [(fires, h0)]
    ∧ aborted (engine (step API_BASE s TimerFire)) = aborted (engine s)
    ∧ published (step API_BASE s TimerFire) = published s
    ∧ predictions (step API_BASE s TimerFire) = predictions s.
Proof.
  intros Hlive. simpl. rewrite Hlive. unfold call_fetchAll, fetchAll_begin. simpl.
  eexists. repeat split. by rewrite fmap_app.
Qed.

Lemma tick_starts_an_overlapping_cycle_witness :
  ∃ c, cycles (step "" (step "" init (EffectRun [6; 12]%Z)) TimerFire) =
         cycles (step "" init (EffectRun [6; 12]%Z)) ++ [c]
       ∧ c_cell c = (fires, 6%Z).
Proof.
  destruct (tick_starts_an_overlapping_cycle "" (step "" init (EffectRun [6; 12]%Z))
              0 6%Z [12%Z] eq_refl) as (c & Hc & _ & Hcell & _).
  by exists c.
Defined.

(** X23. With an empty list of horizons there is nothing to await: running
    the effect publishes the empty snapshot at once, replacing whatever was
    displayed, without a request and without leaving a suspended call. *)
Theorem empty_horizon_list_publishes_empty (API_BASE : string) (s : state) :
  let s' := step API_BASE s (EffectRun []) in
  predictions s' = emptyPredictions
  ∧ (∃ p, published s' = p :: published s ∧ pub_snapshot p = emptyPredictions)
  ∧ cycles s' = cycles s
  ∧ engine s' = engine s.
Proof.
  simpl. unfold call_fetchAll, fetchAll_begin, finish, mounted. simpl.
  rewrite Nat.eqb_refl. simpl. repeat split. by eexists.
Qed.

(** ** One controller per request *)

Lemma list_elem_of_insert_inv {A} (l : list A) (i : nat) (x y : A) :
  y ∈ <[i:=x]> l → y = x ∨ y ∈ l.
Proof.
  revert i. induction l as [|a l IH]; intros [|i]; simpl; try by right.
  - intros [->|?]%elem_of_cons; [by left | right; by right].
  - intros [->|Hin]%elem_of_cons; [right; by left|].
    destruct (IH _ Hin); [by left | right; by right].
Qed.

Lemma NoDup_insert_fresh {A} (l : list A) (i : nat) (x : A) :
  NoDup l → x ∉ l → NoDup (<[i:=x]> l).
Proof.
  revert i. induction l as [|a l IH]; intros [|i] Hnd Hx; simpl; try done.
  - apply NoDup_cons in Hnd as [Ha Hnd]. apply NoDup_cons. split; [|done].
    intros Hin. apply Hx. by right.
  - apply NoDup_cons in Hnd as [Ha Hnd]. apply NoDup_cons. split.
    + intros [->|Hin]%list_elem_of_insert_inv; [apply Hx; by left | done].
    + apply IH; [done|]. intros Hin. apply Hx. by right.
Qed.

Lemma fresh_infer_begin (cfg : config) (st : Engine.state) (d : DisasterKind) (h : Z)
    (options : value) :
  fresh st → fresh (infer_begin cfg st d h options).
Proof.
  intros (Hreg & Hab & Hlog & Hnd). split; [|split; [|split]]; simpl.
  - intros k c [[_ <-]|[_ Hk]]%lookup_insert_Some; [lia|]. apply Hreg in Hk. lia.
  - intros c Hc%Hab. lia.
  - apply Forall_app. split; [|repeat constructor; simpl; lia].
    eapply Forall_impl; [exact Hlog|]. simpl. lia.
  - rewrite fmap_app. apply NoDup_app. split; [done|]. split; [|apply NoDup_singleton].
    intros c (r & Heq & Hr)%list_elem_of_fmap Hc%list_elem_of_singleton.
    eapply Forall_forall in Hlog; [|exact Hr]. simpl in *. lia.
Qed.

Lemma fresh_infer_finally (st : Engine.state) (d : DisasterKind) (h : Z) :
  fresh st → fresh (infer_finally st d h).
Proof.
  intros (Hreg & Hab & Hlog & Hnd). split; [|done]. simpl.
  intros k c [_ Hk]%lookup_delete_Some. by eapply Hreg.
Qed.

Lemma fresh_cleanup (st : Engine.state) : fresh st → fresh (Engine.cleanup st).
Proof.
  intros (Hreg & Hab & Hlog & Hnd). split; [|split; [|done]]; simpl.
  - intros k c Hk. by rewrite lookup_empty in Hk.
  - intros c [Hin|Hin]%elem_of_abort_all; [|by apply Hab].
    apply list_elem_of_fmap in Hin as ([k c'] & -> & Hin).
    apply elem_of_map_to_list in Hin. by eapply Hreg.
Qed.


Section ControllerFacts.
Variable API_BASE : string.

Lemma controllers_distinct_finish (s : state) (p : Publication) :
  controllers_distinct s → controllers_distinct (finish s p).
Proof. unfold controllers_distinct. by rewrite finish_engine, finish_cycles. Qed.

Lemma controllers_distinct_call_fetchAll (s : state) (eff : nat) (hoursList : list Z) :
  controllers_distinct s → controllers_distinct (call_fetchAll API_BASE s eff hoursList).
Proof.
  intros (Hfresh & Hlt & Hnd). unfold call_fetchAll, fetchAll_begin.
  destruct (grid hoursList) as [|[d h] rest].
  - by apply controllers_distinct_finish.
  - split; [|split]; simpl.
    + by apply fresh_infer_begin.
    + apply Forall_app. split; [|repeat constructor; simpl; lia].
      eapply Forall_impl; [exact Hlt|]. simpl. lia.
    + rewrite fmap_app. apply NoDup_app. split; [done|]. split; [|apply NoDup_singleton].
      intros n (c & Heq & Hc)%list_elem_of_fmap Hn%list_elem_of_singleton.
      eapply Forall_forall in Hlt; [|exact Hc]. simpl in *. lia.
Qed.

Lemma controllers_distinct_step (s : state) (ev : event) :
  controllers_distinct s → controllers_distinct (step API_BASE s ev).
Proof.
  intros Hs. destruct ev as [hoursList| | | |i o]; simpl.
  - by apply controllers_distinct_call_fetchAll.
  - destruct (live s) as [[eff hoursList]|]; [|done].
    by apply controllers_distinct_call_fetchAll.
  - done.
  - destruct Hs as (Hfresh & Hlt & Hnd). split; [|done]. by apply fresh_cleanup.
  - destruct (cycles s !! i) as [c|] eqn:Hi; [|done].
    destruct Hs as (Hfresh & Hlt & Hnd).
    match goal with |- context [resume _ _ _ ?o'] => generalize o' end. intros o'.
    unfold resume. destruct (c_rest c) as [|[d h] rest].
    + apply controllers_distinct_finish. split; [|split]; simpl.
      * by apply fresh_infer_finally.
      * by apply Forall_delete.
      * rewrite list_fmap_delete.
        eapply sublist_NoDup; [exact Hnd | apply sublist_delete].
    + split; [|split]; simpl.
      * by apply fresh_infer_begin, fresh_infer_finally.
      * apply Forall_insert; [|simpl; lia].
        eapply Forall_impl; [exact Hlt|]. simpl. lia.
      * rewrite list_fmap_insert. simpl. apply NoDup_insert_fresh; [done|].
        intros (c0 & Heq & Hc0)%list_elem_of_fmap.
        eapply Forall_forall in Hlt; [|exact Hc0]. simpl in *. lia.
Qed.

(** X20. Every request has a controller of its own: in every reachable
    state no two logged requests carry the same signal, and no two calls in
    flight hold the same controller - so that aborting a controller can reach
    one request only. *)
Theorem one_controller_per_request (evs : list event) :
  NoDup (req_signal <$> fetch_log (engine (run API_BASE init evs)))
  ∧ NoDup (c_controller <$> cycles (run API_BASE init evs)).
Proof.
  assert (∀ s, controllers_distinct s → controllers_distinct (run API_BASE s evs)) as Hrun.
  { induction evs as [|ev evs' IH]; intros s Hs; [done|].
    simpl. by apply IH, controllers_distinct_step. }
  destruct (Hrun init) as ((_ & _ & _ & Hsig) & _ & Hctl); [|done].
  split; [apply fresh_init|]. split; constructor.
Qed.
End ControllerFacts.

(** ** The satellite list *)

Import Globe.

Section FetchTLEFacts.
Variable trim : string → string.

(** With no blank line among them, the loop takes the lines three at a time
    and stops at six satellites. *)
Lemma fetchTLE_loop_spec (n : nat) :
  ∀ lines sats,
    length lines ≤ n →
    Forall (λ line, nonempty line = true) lines →
    length sats < 6 →
    fetchTLE_loop trim lines sats = take 6 (sats ++ triples trim lines).
Proof.
  induction n as [|n IH]; intros lines sats Hn Hlines Hsats.
  - destruct lines; [|simpl in Hn; lia]. simpl.
    by rewrite app_nil_r, take_ge by lia.
  - pose proof (proj2 (Nat.leb_gt 6 (length sats)) Hsats) as Hroom.
    destruct lines as [|l0 [|l1 [|l2 rest]]]; cbn [fetchTLE_loop triples].
    + by rewrite app_nil_r, take_ge by lia.
    + by rewrite Hroom, app_nil_r, take_ge by lia.
    + by rewrite Hroom, app_nil_r, take_ge by lia.
    + inversion Hlines as [|? ? _ Hl1]; subst.
      inversion Hl1 as [|? ? H1 Hl2]; subst.
      inversion Hl2 as [|? ? H2 Hrest]; subst.
      rewrite H1, H2. cbn [andb]. rewrite length_app. cbn [length].
      destruct (6 <=? length sats + 1) eqn:Hfull.
      * apply Nat.leb_le in Hfull.
        set (t := {| sat_name := trim l0; sat_tle := (l1, l2) |}).
        replace (sats ++ t :: triples trim rest)
          with ((sats ++ [t]) ++ triples trim rest) by (by rewrite <- app_assoc).
        rewrite take_app_le by (rewrite length_app; simpl; lia).
        rewrite take_ge; [done|]. rewrite length_app. simpl. lia.
      * apply Nat.leb_gt in Hfull.
        rewrite IH; [|simpl in Hn; lia|done|rewrite length_app; simpl; lia].
        by rewrite <- app_assoc.
Qed.

Lemma length_triples (n : nat) :
  ∀ lines, length lines ≤ n → length (triples trim lines) = length lines / 3.
Proof.
  induction n as [|n IH]; intros lines Hn.
  - by destruct lines; [|simpl in Hn; lia].
  - destruct lines as [|l0 [|l1 [|l2 rest]]]; try done. cbn [triples length].
    rewrite IH by (simpl in Hn; lia).
    replace (S (S (S (length rest)))) with (length rest + 1 * 3) by lia.
    rewrite Nat.div_add by done. lia.
Qed.

Lemma filter_nonempty (lines : list string) :
  Forall (λ line, nonempty line = true) (List.filter nonempty lines).
Proof.
  apply Forall_forall. intros line Hin%list_elem_of_In.
  by apply List.filter_In in Hin as [_ ?].
Qed.

(** X24. The satellite list is made of the non-blank lines of the download
    taken three at a time - a name, trimmed, and two element lines - and
    stops at six: there are as many satellites as complete groups of three
    non-blank lines, six at most, a trailing incomplete group being dropped. *)
Theorem parse_TLE_groups_of_three (txt : string) :
  parse_TLE trim txt =
    take 6 (triples trim (List.filter nonempty (split_lines txt)))
  ∧ length (parse_TLE trim txt) =
      6 `min` (length (List.filter nonempty (split_lines txt)) / 3).
Proof.
  assert (parse_TLE trim txt =
          take 6 (triples trim (List.filter nonempty (split_lines txt)))) as Heq.
  { unfold parse_TLE.
    rewrite (fetchTLE_loop_spec _ _ [] (Nat.le_refl _) (filter_nonempty _)); simpl; [done|lia]. }
  split; [done|].
  rewrite Heq, length_take, (length_triples _ _ (Nat.le_refl _)). done.
Qed.

Lemma length_parse_TLE (txt : string) : length (parse_TLE trim txt) ≤ 6.
Proof.
  unfold parse_TLE.
  rewrite (fetchTLE_loop_spec _ _ [] (Nat.le_refl _) (filter_nonempty _)) by (simpl; lia).
  rewrite length_take. lia.
Qed.

Lemma fetchTLE_loop_invariant (n : nat) (lines : list string) (sats : list Satellite) :
  length lines ≤ n →
  length sats < 6 →
  length (fetchTLE_loop trim lines sats) ≤ 6
  ∧ sats `prefix_of` fetchTLE_loop trim lines sats.
Proof.
  revert lines sats. induction n as [|n IH]; intros lines sats Hn Hsats.
  - destruct lines; [|simpl in Hn; lia]. split; [simpl; lia | reflexivity].
  - destruct lines as [|l0 [|l1 [|l2 rest]]]; cbn [fetchTLE_loop].
    + split; [lia | reflexivity].
    + destruct (6 <=? length sats); (split; [lia | reflexivity]).
    + destruct (6 <=? length sats); (split; [lia | reflexivity]).
    + destruct (nonempty l1 && nonempty l2).
      * rewrite length_app. cbn [length].
        destruct (6 <=? length sats + 1) eqn:Hfull.
        -- apply Nat.leb_le in Hfull. rewrite length_app. cbn [length].
           split; [lia | by apply prefix_app_r].
        -- apply Nat.leb_gt in Hfull.
           destruct (IH rest (sats ++ [ {| sat_name := trim l0; sat_tle := (l1, l2) |} ]))
             as [Hlen Hpre]; [simpl in Hn; lia | rewrite length_app; simpl; lia|].
           split; [done|]. etrans; [|exact Hpre]. by apply prefix_app_r.
      * destruct (6 <=? length sats); [split; [lia | reflexivity]|].
        apply IH; [simpl in Hn; lia | done].
Qed.

(** X25. Whether or not the lines are free of blanks, the loop, entered with
    fewer than six satellites, never ends with more than six, and it never
    drops one it has pushed: what was there on entry is a prefix of what is
    there on exit. *)
Theorem fetchTLE_loop_bounded (lines : list string) (sats : list Satellite) :
  length sats < 6 →
  length (fetchTLE_loop trim lines sats) ≤ 6
  ∧ sats `prefix_of` fetchTLE_loop trim lines sats.
Proof.
  intros Hsats. by apply (fetchTLE_loop_invariant (length lines)).
Qed.
End FetchTLEFacts.

Lemma fetchTLE_loop_bounded_witness :
  length (fetchTLE_loop id ["ISS"; ""; "2 25544"; "HST"; "1 20580U"; "2 20580"] []) ≤ 6.
Proof.
  refine (proj1 (fetchTLE_loop_bounded id
                   ["ISS"; ""; "2 25544"; "HST"; "1 20580U"; "2 20580"] [] _)).
  simpl. lia.
Defined.

(** ** The markers *)

Lemma pretty_digit (i : nat) :
  i < 10 → pretty i = String (Ascii.ascii_of_nat (48 + i)) EmptyString.
Proof.
  intros Hi. do 10 (destruct i as [|i]; [reflexivity|]). lia.
Qed.

Lemma app_last_char (s1 s2 : string) (c1 c2 : Ascii.ascii) :
  s1 +:+ String c1 EmptyString = s2 +:+ String c2 EmptyString → c1 = c2.
Proof.
  revert s2. induction s1 as [|a s1 IH]; intros [|b s2]; simpl; intros Heq.
  - by injection Heq.
  - injection Heq as _ Heq. by destruct s2.
  - injection Heq as _ Heq. by destruct s1.
  - injection Heq as _ Heq. by eapply IH.
Qed.

(** X26. With six satellites at most, the markers get colours that are
    pairwise distinct; this is the case of every list [fetchTLE] can produce
    from a download. *)
Theorem marker_colors_distinct (trim : string → string) (satellites : list Satellite) :
  (length satellites ≤ 6 → NoDup (marker_colors satellites))
  ∧ ∀ txt, NoDup (marker_colors (parse_TLE trim txt)).
Proof.
  assert (∀ sats : list Satellite, length sats ≤ 6 → NoDup (marker_colors sats)) as Hcol.
  { intros sats Hlen. unfold marker_colors.
    do 7 (destruct sats as [|? sats]; [apply (bool_decide_unpack _); by vm_compute|]).
    simpl in Hlen. lia. }
  split; [apply Hcol|]. intros txt. apply Hcol, length_parse_TLE.
Qed.

(** X27. With ten satellites at most, and so for every list [fetchTLE] can
    produce, the keys [s.name + i] of the markers are pairwise distinct, even
    when satellites share a name. *)
Theorem marker_keys_distinct (trim : string → string) (satellites : list Satellite) :
  (length satellites ≤ 10 → NoDup (marker_keys satellites))
  ∧ ∀ txt, NoDup (marker_keys (parse_TLE trim txt)).
Proof.
  assert (∀ sats : list Satellite, length sats ≤ 10 → NoDup (marker_keys sats)) as Hkey.
  { intros sats Hlen. unfold marker_keys. apply NoDup_alt. intros i j k Hi Hj.
    apply list_lookup_imap_Some in Hi as (si & Hsi & ->).
    apply list_lookup_imap_Some in Hj as (sj & Hsj & Heq).
    apply lookup_lt_Some in Hsi, Hsj.
    rewrite !pretty_digit in Heq by lia.
    apply app_last_char in Heq.
    apply (f_equal Ascii.nat_of_ascii) in Heq.
    rewrite !Ascii.nat_ascii_embedding in Heq by lia. lia. }
  split; [apply Hkey|]. intros txt. apply Hkey.
  pose proof (length_parse_TLE trim txt). lia.
Qed.


Lemma marker_colors_distinct_witness :
  NoDup (marker_colors
           [ {| sat_name := "ISS"; sat_tle := ("1 25544U", "2 25544") |};
             {| sat_name := "ISS"; sat_tle := ("1 25544U", "2 25544") |} ]).
Proof.
  refine (proj1 (marker_colors_distinct id
                   [ {| sat_name := "ISS"; sat_tle := ("1 25544U", "2 25544") |};
                     {| sat_name := "ISS"; sat_tle := ("1 25544U", "2 25544") |} ]) _).
  simpl. lia.
Defined.

Lemma marker_keys_distinct_witness :
  NoDup (marker_keys
           [ {| sat_name := "ISS"; sat_tle := ("1 25544U", "2 25544") |};
             {| sat_name := "ISS"; sat_tle := ("1 25544U", "2 25544") |} ]).
Proof.
  refine (proj1 (marker_keys_distinct id
                   [ {| sat_name := "ISS"; sat_tle := ("1 25544U", "2 25544") |};
                     {| sat_name := "ISS"; sat_tle := ("1 25544U", "2 25544") |} ]) _).
  simpl. lia.
Defined.
